(** * pyspeex-noise: the [AudioProcessor] binding of [src/python.cpp]

    A shallow embedding of the pybind11 wrapper around the SpeexDSP
    preprocessor.  The wrapper validates a chunk of 16-bit mono PCM, copies it
    into a temporary [std::vector<int16_t>], lets the external routine work on
    that copy in place and returns the copy as a new [bytes] object.

    The model is a state-and-exception monad over a [world] made of
    - the live external preprocessor states, keyed by handle,
    - a byte-addressed memory of buffers (the caller's [bytes] objects and the
      temporary vectors),
    - the chronological trace of the calls made into the external library.

    The external library itself is a parameter ([SpeexDSP]). *)

From Stdlib Require Import ZArith Lia List.
From Stdlib Require Import Strings.Byte.
From Stdlib Require Import Floats.SpecFloat.
From stdpp Require Import base option list strings pretty gmap.

Local Open Scope Z_scope.

(** ** Machine integers *)

Module Int.

Definition min_signed : Z := -2147483648.
Definition max_signed : Z := 2147483647.

(** Reduction of a mathematical integer to the value of a 32-bit [int]
    (two's complement wrap-around). *)
Definition wrap (z : Z) : Z := (z + 2147483648) mod 4294967296 - 2147483648.

(** [a * b] on [int]. *)
Definition mul (a b : Z) : Z := wrap (a * b).

Definition in_range (z : Z) : Prop := min_signed <= z <= max_signed.

End Int.

(** ** Bytes and 16-bit samples *)

Module PCM.

Definition byte_val (b : byte) : Z := Z.of_N (Byte.to_N b).

(** The byte holding the low eight bits of [z]. *)
Definition byte_of_Z (z : Z) : byte :=
  match Byte.of_N (Z.to_N (z mod 256)) with
  | Some b => b
  | None => x00
  end.

(** The [int16_t] stored in two consecutive bytes, low byte first. *)
Definition int16_of_bytes (lo hi : byte) : Z :=
  let u := byte_val lo + 256 * byte_val hi in
  if u <? 32768 then u else u - 65536.

Definition lo_byte (s : Z) : byte := byte_of_Z s.
Definition hi_byte (s : Z) : byte := byte_of_Z (s / 256).

(** A byte buffer read as an array of [int16_t]; an odd trailing byte is
    not part of any sample. *)
Fixpoint samples_of_bytes (bs : list byte) : list Z :=
  match bs with
  | lo :: hi :: rest => int16_of_bytes lo hi :: samples_of_bytes rest
  | _ => []
  end.

Fixpoint bytes_of_samples (ss : list Z) : list byte :=
  match ss with
  | [] => []
  | s :: rest => lo_byte s :: hi_byte s :: bytes_of_samples rest
  end.

(** Writing [new] over the beginning of [old] without changing its
    length: what a store through a pointer into a fixed allocation can do. *)
Definition overwrite (old new : list byte) : list byte :=
  take (length old) (new ++ drop (length new) old).

End PCM.

(** ** Exceptions, outcomes and the computation monad *)

(** The C++ exceptions that can leave the wrapper, with their [what()]. *)
Inductive exception :=
| std_invalid_argument (what : string)
| std_runtime_error (what : string)
| std_length_error (what : string).

(** How a call ends.  [Undefined] stands for executions C++ gives no meaning
    to (a read outside an allocation, a dead or null state handle handed to
    the library). *)
Inductive outcome (A : Type) :=
| Returns (a : A)
| Throws (e : exception)
| Undefined.

Arguments Returns {A} a.
Arguments Throws {A} e.
Arguments Undefined {A}.

Definition comp (S A : Type) : Type := S -> outcome A * S.

Definition ret {S A} (a : A) : comp S A := fun s => (Returns a, s).

Definition bind {S A B} (m : comp S A) (k : A -> comp S B) : comp S B :=
  fun s =>
    match m s with
    | (Returns a, s') => k a s'
    | (Throws e, s') => (Throws e, s')
    | (Undefined, s') => (Undefined, s')
    end.

Definition throw {S A} (e : exception) : comp S A := fun s => (Throws e, s).

Definition undefined {S A} : comp S A := fun s => (Undefined, s).

Definition gets {S A} (f : S -> A) : comp S A := fun s => (Returns (f s), s).

Definition modify {S} (f : S -> S) : comp S unit := fun s => (Returns tt, f s).

Notation "x <- m ;; k" := (bind m (fun x => k))
  (at level 100, m at next level, right associativity).
Notation "m ;;; k" := (bind m (fun _ => k))
  (at level 100, right associativity).

(** [if (c) throw e;] *)
Definition throw_if {S} (c : bool) (e : exception) : comp S unit :=
  if c then throw e else ret tt.

(** ** The external collaborator: the SpeexDSP preprocessor *)

(** The requests of [speex_preprocess_ctl] the wrapper issues, each with the
    value its argument points to. *)
Inductive ctl_request :=
| SPEEX_PREPROCESS_SET_DENOISE (v : Z)
| SPEEX_PREPROCESS_SET_NOISE_SUPPRESS (v : Z)
| SPEEX_PREPROCESS_SET_AGC (v : Z)
| SPEEX_PREPROCESS_SET_AGC_LEVEL (v : spec_float).

(** The library is a black box: an opaque state, its initial value for a
    frame size and a sampling rate (or none, when the library refuses), the
    effect of a control request, and the effect of processing one frame (new
    state, the samples it leaves in the frame, the voice-activity flag). *)
Class SpeexDSP := {
  SpeexPreprocessState : Type;
  dsp_state_init : Z -> Z -> option SpeexPreprocessState;
  dsp_ctl : SpeexPreprocessState -> ctl_request -> SpeexPreprocessState;
  dsp_run : SpeexPreprocessState -> list Z -> SpeexPreprocessState * list Z * Z;
}.

Definition handle := positive.
Definition addr := positive.

(** Calls into the library, as they appear in the trace. *)
Inductive event :=
| EvInit (frame_size sampling_rate : Z) (result : option handle)
| EvCtl (st : handle) (request : ctl_request)
| EvRun (st : handle) (x : addr) (frame : list Z)
| EvDestroy (st : handle).

Section Wrapper.

Context {dsp : SpeexDSP}.

(** [w_budget] is the number of preprocessor states the library's
    allocator can still hand out. *)
Record world := World {
  w_speex : gmap handle SpeexPreprocessState;
  w_budget : nat;
  w_mem : gmap addr (list byte);
  w_trace : list event;
}.

Definition set_speex (f : gmap handle SpeexPreprocessState ->
                          gmap handle SpeexPreprocessState) (w : world) : world :=
  World (f (w_speex w)) (w_budget w) (w_mem w) (w_trace w).

Definition set_budget (f : nat -> nat) (w : world) : world :=
  World (w_speex w) (f (w_budget w)) (w_mem w) (w_trace w).

Definition set_mem (f : gmap addr (list byte) -> gmap addr (list byte))
    (w : world) : world :=
  World (w_speex w) (w_budget w) (f (w_mem w)) (w_trace w).

Definition log (e : event) (w : world) : world :=
  World (w_speex w) (w_budget w) (w_mem w) (w_trace w ++ [e]).

(** *** The four library entry points, acting on the world *)

(** Returns a fresh handle, or null. *)
Definition speex_preprocess_state_init (frame_size sampling_rate : Z)
  : comp world (option handle) :=
  fun w =>
    match w_budget w, dsp_state_init frame_size sampling_rate with
    | S k, Some st =>
        let h := fresh (dom (w_speex w)) in
        (Returns (Some h),
         log (EvInit frame_size sampling_rate (Some h))
           (set_budget (fun _ => k) (set_speex (insert h st) w)))
    | _, _ => (Returns None, log (EvInit frame_size sampling_rate None) w)
    end.

Definition speex_preprocess_state_destroy (st : option handle)
  : comp world unit :=
  fun w =>
    match st with
    | Some h =>
        match w_speex w !! h with
        | Some _ =>
            (Returns tt,
             log (EvDestroy h) (set_budget S (set_speex (delete h) w)))
        | None => (Undefined, w)
        end
    | None => (Undefined, w)
    end.

(** The [int] result of the request is dropped by every caller. *)
Definition speex_preprocess_ctl (st : option handle) (request : ctl_request)
  : comp world unit :=
  fun w =>
    match st with
    | Some h =>
        match w_speex w !! h with
        | Some s =>
            (Returns tt,
             log (EvCtl h request) (set_speex (insert h (dsp_ctl s request)) w))
        | None => (Undefined, w)
        end
    | None => (Undefined, w)
    end.

(** Processes the frame at [x] in place: the routine reads the buffer as
    [int16_t] samples and stores its output over them; it touches nothing
    but that buffer and the state behind [st]. *)
Definition speex_preprocess_run (st : option handle) (x : addr)
  : comp world Z :=
  fun w =>
    match st with
    | Some h =>
        match w_speex w !! h, w_mem w !! x with
        | Some s, Some buf =>
            let frame := PCM.samples_of_bytes buf in
            let '(s', out, vad) := dsp_run s frame in
            (Returns vad,
             log (EvRun h x frame)
               (set_mem (insert x (PCM.overwrite buf (PCM.bytes_of_samples out)))
                  (set_speex (insert h s') w)))
        | _, _ => (Undefined, w)
        end
    | None => (Undefined, w)
    end.

(** *** Memory operations of the C++ and pybind11 runtime *)

(** [std::vector<int16_t> v(n)]: [n] zero samples at a fresh address. *)
Definition vector_int16 (n : Z) : comp world addr :=
  fun w =>
    if n <? 0 then
      (Throws (std_length_error
                 "cannot create std::vector larger than max_size()"), w)
    else
      let p := fresh (dom (w_mem w)) in
      (Returns p, set_mem (insert p (replicate (Z.to_nat (2 * n)) x00)) w).

(** The vector going out of scope. *)
Definition vector_delete (p : addr) : comp world unit :=
  modify (set_mem (delete p)).

Definition in_bounds (count : Z) (buf : list byte) : bool :=
  (0 <=? count) && (count <=? Z.of_nat (length buf)).

Definition memcpy (dst src : addr) (count : Z) : comp world unit :=
  fun w =>
    match w_mem w !! dst, w_mem w !! src with
    | Some d, Some s =>
        if in_bounds count d && in_bounds count s then
          (Returns tt,
           set_mem (insert dst (take (Z.to_nat count) s
                                  ++ drop (Z.to_nat count) d)) w)
        else (Undefined, w)
    | _, _ => (Undefined, w)
    end.

(** [py::bytes(p, count)]: a new immutable byte string holding a copy of
    [count] bytes found at [p]. *)
Definition py_bytes (p : addr) (count : Z) : comp world (list byte) :=
  fun w =>
    match w_mem w !! p with
    | Some buf =>
        if in_bounds count buf then (Returns (take (Z.to_nat count) buf), w)
        else (Undefined, w)
    | None => (Undefined, w)
    end.

(** *** The wrapper's data *)

Record ProcessedAudioChunk := { audio : list byte }.

Record AudioProcessor := {
  state : option handle;
  m_chunk_size_samples : Z;
  m_chunk_size_bytes : Z;
}.

(** What [py::buffer(obj).request()] reports about the argument. *)
Record buffer_info := {
  ptr : addr;
  size : Z;
  ndim : Z;
}.

(** A member function runs on the object and the world. *)
Definition method (A : Type) : Type := comp (AudioProcessor * world) A.

Definition ext {A} (m : comp world A) : method A :=
  fun '(this, w) => let '(r, w') := m w in (r, (this, w')).

Definition this_state : method (option handle) := gets (fun s => state (fst s)).
Definition this_chunk_size_samples : method Z :=
  gets (fun s => m_chunk_size_samples (fst s)).
Definition this_chunk_size_bytes : method Z :=
  gets (fun s => m_chunk_size_bytes (fst s)).

(** [this->state = v] *)
Definition set_this_state (v : option handle) : method unit :=
  modify (fun '(this, w) =>
    ({| state := v;
        m_chunk_size_samples := m_chunk_size_samples this;
        m_chunk_size_bytes := m_chunk_size_bytes this |}, w)).

(** *** [AudioProcessor::AudioProcessor] *)

Definition positive_float (f : spec_float) : bool := SFltb (S754_zero false) f.

Definition ctl (request : ctl_request) : method unit :=
  st <- this_state ;; ext (speex_preprocess_ctl st request).

(** The body of the constructor, run after the member initialisers. *)
Definition AudioProcessor_body (chunk_size_samples : Z)
    (auto_gain : spec_float) (noise_suppression : Z) : method unit :=
  throw_if (chunk_size_samples <=? 0)
    (std_invalid_argument "chunk_size_samples must be positive.") ;;;
  n <- this_chunk_size_samples ;;
  st <- ext (speex_preprocess_state_init n 16000) ;;
  set_this_state st ;;;
  throw_if (negb (bool_decide (is_Some st)))
    (std_runtime_error "Failed to initialize Speex preprocessor state.") ;;;
  let noise_state := if noise_suppression =? 0 then 0 else 1 in
  ctl (SPEEX_PREPROCESS_SET_DENOISE noise_state) ;;;
  (if negb (noise_suppression =? 0)
   then ctl (SPEEX_PREPROCESS_SET_NOISE_SUPPRESS noise_suppression)
   else ret tt) ;;;
  let agc_enabled := if positive_float auto_gain then 1 else 0 in
  ctl (SPEEX_PREPROCESS_SET_AGC agc_enabled) ;;;
  if positive_float auto_gain
  then ctl (SPEEX_PREPROCESS_SET_AGC_LEVEL auto_gain)
  else ret tt.

(** The constructor: member initialisers ([state = NULL], the sample count,
    and the byte count as an [int] product), then the body.  An exception
    leaves no object behind. *)
Definition AudioProcessor_ctor (chunk_size_samples : Z)
    (auto_gain : spec_float) (noise_suppression : Z)
  : comp world AudioProcessor :=
  fun w =>
    let this := {| state := None;
                   m_chunk_size_samples := chunk_size_samples;
                   m_chunk_size_bytes := Int.mul chunk_size_samples 2 |} in
    match AudioProcessor_body chunk_size_samples auto_gain noise_suppression
            (this, w) with
    | (Returns _, (this', w')) => (Returns this', w')
    | (Throws e, (_, w')) => (Throws e, w')
    | (Undefined, (_, w')) => (Undefined, w')
    end.

(** *** [AudioProcessor::~AudioProcessor] *)

Definition AudioProcessor_dtor : method unit :=
  st <- this_state ;;
  if bool_decide (is_Some st) then
    ext (speex_preprocess_state_destroy st) ;;;
    set_this_state None
  else ret tt.

(** *** [AudioProcessor::ProcessChunk] *)

Definition to_string (z : Z) : string := pretty z.

Definition size_mismatch (got expected : Z) : string :=
  "Input audio size (" +:+ to_string got +:+
  " bytes) does not match configured chunk size (" +:+
  to_string expected +:+ " bytes).".

Definition ProcessChunk (input_buf_info : buffer_info)
  : method ProcessedAudioChunk :=
  throw_if (negb (ndim input_buf_info =? 1))
    (std_runtime_error "Input audio must be a 1D bytes array.") ;;;
  chunk_size_bytes <- this_chunk_size_bytes ;;
  throw_if (negb (size input_buf_info =? chunk_size_bytes))
    (std_runtime_error (size_mismatch (size input_buf_info) chunk_size_bytes)) ;;;
  chunk_size_samples <- this_chunk_size_samples ;;
  temp_audio_buffer <- ext (vector_int16 chunk_size_samples) ;;
  ext (memcpy temp_audio_buffer (ptr input_buf_info) chunk_size_bytes) ;;;
  st <- this_state ;;
  _ <- ext (speex_preprocess_run st temp_audio_buffer) ;;
  processed_audio_py_obj <- ext (py_bytes temp_audio_buffer chunk_size_bytes) ;;
  ext (vector_delete temp_audio_buffer) ;;;
  ret {| audio := processed_audio_py_obj |}.

End Wrapper.

(** ** The vocabulary of the specification *)

Section Vocabulary.

Context {dsp : SpeexDSP}.

(** The three error conditions, as the exceptions that signal them. *)
Definition InvalidArgument (e : exception) : Prop :=
  exists what, e = std_invalid_argument what.

Definition InitializationFailure (e : exception) : Prop :=
  e = std_runtime_error "Failed to initialize Speex preprocessor state.".

Definition ShapeMismatch (e : exception) : Prop :=
  exists got expected, e = std_runtime_error (size_mismatch got expected).

(** The data-model invariant of an instance. *)
Definition chunk_invariant (this : AudioProcessor) : Prop :=
  0 < m_chunk_size_samples this /\
  m_chunk_size_bytes this = 2 * m_chunk_size_samples this.

(** The instance owns a live preprocessor state. *)
Definition owns_state (this : AudioProcessor) (w : world) : Prop :=
  exists h, state this = Some h /\ is_Some (w_speex w !! h).

(** State _ready_ of the life cycle. *)
Definition ready (this : AudioProcessor) (w : world) : Prop :=
  chunk_invariant this /\ owns_state this w.

(** [info] is the buffer view of a [bytes] object with contents [data]:
    one dimension, one item per byte, backed by memory of the world. *)
Definition bytes_view (w : world) (info : buffer_info) (data : list byte)
  : Prop :=
  ndim info = 1 /\ size info = Z.of_nat (length data) /\
  w_mem w !! ptr info = Some data.

(** The library can provide a state for frames of [n] samples. *)
Definition can_allocate (w : world) (n : Z) : Prop :=
  w_budget w <> O /\ is_Some (dsp_state_init n 16000).

(** The control requests of a construction, in program order. *)
Definition ctl_requests (auto_gain : spec_float) (noise_suppression : Z)
  : list ctl_request :=
  SPEEX_PREPROCESS_SET_DENOISE (if noise_suppression =? 0 then 0 else 1)
  :: (if noise_suppression =? 0 then []
      else [SPEEX_PREPROCESS_SET_NOISE_SUPPRESS noise_suppression])
  ++ SPEEX_PREPROCESS_SET_AGC (if positive_float auto_gain then 1 else 0)
  :: (if positive_float auto_gain
      then [SPEEX_PREPROCESS_SET_AGC_LEVEL auto_gain] else []).

(** *** The operations on a constructed instance *)

Inductive operation :=
| OpProcessChunk (input_buf_info : buffer_info)
| OpDestroy.

Inductive result :=
| Chunk (c : ProcessedAudioChunk)
| Destroyed.

Definition run_op (op : operation) : method result :=
  match op with
  | OpProcessChunk info => c <- ProcessChunk info ;; ret (Chunk c)
  | OpDestroy => AudioProcessor_dtor ;;; ret Destroyed
  end.

(** Any sequence of operations, each started where the previous one
    stopped, whatever its outcome. *)
Fixpoint run_ops (ops : list operation) (s : AudioProcessor * world)
  : AudioProcessor * world :=
  match ops with
  | [] => s
  | op :: rest => run_ops rest (snd (run_op op s))
  end.

(** *** A Python caller *)

(** A new [bytes] object with the given contents. *)
Definition bytes_object (data : list byte) : comp world buffer_info :=
  fun w =>
    let p := fresh (dom (w_mem w)) in
    (Returns {| ptr := p; size := Z.of_nat (length data); ndim := 1 |},
     set_mem (insert p data) w).

(** [proc.ProcessChunk(data)] *)
Definition call_ProcessChunk (data : list byte) : method ProcessedAudioChunk :=
  info <- ext (bytes_object data) ;; ProcessChunk info.

(** Feeding one instance a sequence of chunks; a failed call does not stop
    the caller. *)
Fixpoint feed (chunks : list (list byte)) (s : AudioProcessor * world)
  : list (outcome ProcessedAudioChunk) :=
  match chunks with
  | [] => []
  | data :: rest =>
      let '(r, s') := call_ProcessChunk data s in r :: feed rest s'
  end.

(** Two instances in one world, called in any interleaving. *)
Inductive who := First | Second.

Definition who_eqb (a b : who) : bool :=
  match a, b with
  | First, First | Second, Second => true
  | _, _ => false
  end.

Fixpoint run_schedule (a b : AudioProcessor)
    (schedule : list (who * list byte)) (w : world)
  : list (who * outcome ProcessedAudioChunk) :=
  match schedule with
  | [] => []
  | (First, data) :: rest =>
      let '(r, (a', w')) := call_ProcessChunk data (a, w) in
      (First, r) :: run_schedule a' b rest w'
  | (Second, data) :: rest =>
      let '(r, (b', w')) := call_ProcessChunk data (b, w) in
      (Second, r) :: run_schedule a b' rest w'
  end.

(** What was sent to, or came back from, one of the two. *)
Fixpoint of_instance {A} (i : who) (l : list (who * A)) : list A :=
  match l with
  | [] => []
  | (j, x) :: rest =>
      if who_eqb j i then x :: of_instance i rest else of_instance i rest
  end.

(** *** Summaries used in the proofs *)

(** The world after the control requests of a construction. *)
Definition configured (h : handle) (st0 : SpeexPreprocessState)
    (requests : list ctl_request) (w : world) : world :=
  World (<[h := foldl dsp_ctl st0 requests]> (w_speex w)) (w_budget w)
    (w_mem w) (w_trace w ++ map (EvCtl h) requests).

(** What one [ProcessChunk] call does with the contents of its argument
    and the preprocessor state of the instance, the rest of the world left
    out. *)
Definition chunk_step (this : AudioProcessor) (s : SpeexPreprocessState)
    (data : list byte) : outcome ProcessedAudioChunk * SpeexPreprocessState :=
  let nbytes := m_chunk_size_bytes this in
  let zeros := replicate (Z.to_nat (2 * m_chunk_size_samples this)) x00 in
  if negb (Z.of_nat (length data) =? nbytes) then
    (Throws (std_runtime_error
               (size_mismatch (Z.of_nat (length data)) nbytes)), s)
  else if in_bounds nbytes zeros then
    let temp := take (Z.to_nat nbytes) data ++ drop (Z.to_nat nbytes) zeros in
    let '(s', out, _) := dsp_run s (PCM.samples_of_bytes temp) in
    (Returns {| audio := take (Z.to_nat nbytes)
                           (PCM.overwrite temp (PCM.bytes_of_samples out)) |},
     s')
  else (Undefined, s).

(** One instance on its own, fed a sequence of chunks. *)
Fixpoint solo (this : AudioProcessor) (s : SpeexPreprocessState)
    (chunks : list (list byte)) : list (outcome ProcessedAudioChunk) :=
  match chunks with
  | [] => []
  | data :: rest =>
      (chunk_step this s data).1 :: solo this (chunk_step this s data).2 rest
  end.

End Vocabulary.

(** ** A small stand-in for the library

    Used to run the model on concrete inputs.  It keeps the two switches and
    counts the frames it has seen; with denoising on it silences the samples
    whose magnitude does not exceed that count, with gain control on it
    doubles the samples (saturating). *)

Module Gate.

Record gate := {
  denoise : bool;
  agc : bool;
  seen : Z;
}.

Definition init (frame_size sampling_rate : Z) : option gate :=
  if (0 <? frame_size) && (0 <? sampling_rate)
  then Some {| denoise := true; agc := false; seen := 0 |}
  else None.

Definition control (s : gate) (request : ctl_request) : gate :=
  match request with
  | SPEEX_PREPROCESS_SET_DENOISE v =>
      {| denoise := negb (v =? 0); agc := agc s; seen := seen s |}
  | SPEEX_PREPROCESS_SET_AGC v =>
      {| denoise := denoise s; agc := negb (v =? 0); seen := seen s |}
  | _ => s
  end.

Definition saturate (z : Z) : Z := Z.max (-32768) (Z.min 32767 z).

Definition process (s : gate) (frame : list Z) : gate * list Z * Z :=
  let gated :=
    if denoise s
    then map (fun x => if Z.abs x <=? seen s then 0 else x) frame
    else frame in
  let out := if agc s then map (fun x => saturate (2 * x)) gated else gated in
  ({| denoise := denoise s; agc := agc s; seen := seen s + 1 |}, out, 1).

Definition dsp : SpeexDSP := {|
  SpeexPreprocessState := gate;
  dsp_state_init := init;
  dsp_ctl := control;
  dsp_run := process;
|}.

(** A world with nothing in it but room for [k] preprocessor states. *)
Definition empty_world (k : nat) : @world dsp := World ∅ k ∅ [].

End Gate.

(** ** The pass-through contract of the library *)

(** Modelled from the spec: the effect of [speex_preprocess_ctl] and
    [speex_preprocess_run] on the library's switches and on the frame; the
    library is not part of the wrapper's source.  The specification describes
    it as denoising and gain control, each switched by a control request, and
    as doing no processing on the frame when both are disabled. *)
Class PassThrough (dsp : SpeexDSP) := {
  denoise_enabled : SpeexPreprocessState -> bool;
  agc_enabled : SpeexPreprocessState -> bool;
  ctl_set_denoise : forall s v,
    denoise_enabled (dsp_ctl s (SPEEX_PREPROCESS_SET_DENOISE v)) = negb (v =? 0)
    /\ agc_enabled (dsp_ctl s (SPEEX_PREPROCESS_SET_DENOISE v)) = agc_enabled s;
  ctl_set_agc : forall s v,
    agc_enabled (dsp_ctl s (SPEEX_PREPROCESS_SET_AGC v)) = negb (v =? 0)
    /\ denoise_enabled (dsp_ctl s (SPEEX_PREPROCESS_SET_AGC v))
       = denoise_enabled s;
  run_keeps_switches : forall s frame,
    denoise_enabled (dsp_run s frame).1.1 = denoise_enabled s
    /\ agc_enabled (dsp_run s frame).1.1 = agc_enabled s;
  run_disabled : forall s frame,
    denoise_enabled s = false -> agc_enabled s = false ->
    (dsp_run s frame).1.2 = frame;
}.

(** Both switches of the preprocessor are off. *)
Definition idle {dsp : SpeexDSP} {pt : PassThrough dsp}
    (s : SpeexPreprocessState) : Prop :=
  denoise_enabled s = false /\ agc_enabled s = false.

(** The stand-in honours the contract. *)
Definition gate_pass_through : PassThrough Gate.dsp.
Proof.
  refine {| denoise_enabled := Gate.denoise : @SpeexPreprocessState Gate.dsp -> bool;
            agc_enabled := Gate.agc : @SpeexPreprocessState Gate.dsp -> bool |}.
  - intros s v. split; reflexivity.
  - intros s v. split; reflexivity.
  - intros s frame. split; reflexivity.
  - intros s frame Hd Ha. cbn in *. unfold Gate.process.
    rewrite Hd, Ha. reflexivity.
Defined.

(** ** Concrete runs *)

Module Demo.

(** The parameters of the two constructions used below: both features off,
    and both on (suppression 7, gain target 3). *)
Definition gain_off : spec_float := S754_zero false.
Definition gain_on : spec_float := S754_finite false 3 0.

(** An instance for chunks of two samples, and the world its construction
    leaves when it starts from an empty one. *)
Definition processor : AudioProcessor :=
  {| state := Some 1%positive; m_chunk_size_samples := 2;
     m_chunk_size_bytes := 4 |}.

Definition after_ctor : @world Gate.dsp :=
  (AudioProcessor_ctor 2 gain_on 7 (Gate.empty_world 2)).2.

(** The caller's bytes object, at an address of its own. *)
Definition with_bytes (data : list byte) (w : @world Gate.dsp)
  : @world Gate.dsp :=
  set_mem (insert 7%positive data) w.

Definition view (data : list byte) : buffer_info :=
  {| ptr := 7%positive; size := Z.of_nat (length data); ndim := 1 |}.

(** A view with two dimensions. *)
Definition matrix_view : buffer_info :=
  {| ptr := 7%positive; size := 4; ndim := 2 |}.

Definition four : list byte := [x01; x02; x03; xff].
Definition three : list byte := [x01; x02; x03].

(** A second instance with the same parameters, constructed next. *)
Definition second_processor : AudioProcessor :=
  {| state := Some 2%positive; m_chunk_size_samples := 2;
     m_chunk_size_bytes := 4 |}.

Definition after_second_ctor : @world Gate.dsp :=
  (AudioProcessor_ctor 2 gain_on 7 after_ctor).2.

(** Calls on the two instances, interleaved; each receives [four], [three],
    [four]. *)
Definition interleaved : list (who * list byte) :=
  [(First, four); (Second, four); (Second, three); (First, three);
   (First, four); (Second, four)].

(** The scenario of the pass-through check: 160 samples, both features
    off. *)
Definition processor_160 : AudioProcessor :=
  {| state := Some 1%positive; m_chunk_size_samples := 160;
     m_chunk_size_bytes := 320 |}.

Definition after_ctor_160 : @world Gate.dsp :=
  (AudioProcessor_ctor 160 gain_off 0 (Gate.empty_world 2)).2.

(** A chunk of 160 samples. *)
Definition chunk_160 : list byte := replicate 320 x2a.

End Demo.

(** ** Further vocabulary *)

(** The value an [int16_t] holds after [z] is stored in it. *)
Definition int16 (z : Z) : Z :=
  let u := z mod 65536 in if u <? 32768 then u else u - 65536.

(** ** Further concrete runs *)

Module Runs.

Import Demo.

(** The stand-in's state after the construction of [processor]: both
    switches on, no frame seen. *)
Definition gate_on : Gate.gate :=
  {| Gate.denoise := true; Gate.agc := true; Gate.seen := 0 |}.

(** The world after a construction attempt on an exhausted allocator. *)
Definition after_failed_ctor : @world Gate.dsp :=
  log (EvInit 160 16000 None) (Gate.empty_world 0).

Definition failed_to_initialize : exception :=
  std_runtime_error "Failed to initialize Speex preprocessor state.".

(** An instance with one sample more per chunk than the byte count can
    follow, and the world its construction leaves. *)
Definition oversized : AudioProcessor :=
  {| state := Some 1%positive; m_chunk_size_samples := 1073741824;
     m_chunk_size_bytes := -2147483648 |}.

Definition after_oversized_ctor : @world Gate.dsp :=
  (AudioProcessor_ctor 1073741824 gain_off 0 (Gate.empty_world 1)).2.

End Runs.

(** * Properties *)

(** ** Machine integers *)

Module IntFacts.
Import Int.

Lemma wrap_in_range z : in_range (wrap z).
Proof.
  unfold in_range, wrap, min_signed, max_signed.
  pose proof (Z.mod_pos_bound (z + 2147483648) 4294967296). lia.
Qed.

Lemma wrap_small z : in_range z -> wrap z = z.
Proof.
  unfold in_range, wrap, min_signed, max_signed. intros Hz.
  rewrite Z.mod_small; lia.
Qed.


End IntFacts.

(** ** Bytes and samples *)

Module PCMFacts.
Import PCM.

Lemma byte_val_range b : 0 <= byte_val b < 256.
Proof.
  unfold byte_val. pose proof (Byte.to_N_bounded b) as Hb.
  lia.
Qed.

Lemma byte_of_val b : byte_of_Z (byte_val b) = b.
Proof.
  unfold byte_of_Z. pose proof (byte_val_range b) as Hb.
  rewrite Z.mod_small by lia. unfold byte_val.
  rewrite N2Z.id, Byte.of_to_N. reflexivity.
Qed.

Lemma byte_of_Z_mod z : byte_of_Z (z mod 256) = byte_of_Z z.
Proof. unfold byte_of_Z. rewrite Z.mod_mod by lia. reflexivity. Qed.

Lemma split_lo a b : 0 <= a < 256 -> (a + 256 * b) mod 256 = a.
Proof.
  intros Ha. replace (a + 256 * b) with (a + b * 256) by lia.
  rewrite Z.mod_add by lia. apply Z.mod_small. lia.
Qed.

Lemma split_hi a b : 0 <= a < 256 -> (a + 256 * b) / 256 = b.
Proof.
  intros Ha. replace (a + 256 * b) with (a + b * 256) by lia.
  rewrite Z.div_add by lia. rewrite Z.div_small; lia.
Qed.

Lemma int16_bytes_roundtrip lo hi :
  lo_byte (int16_of_bytes lo hi) = lo /\ hi_byte (int16_of_bytes lo hi) = hi.
Proof.
  pose proof (byte_val_range lo) as Hlo.
  pose proof (byte_val_range hi) as Hhi.
  unfold lo_byte, hi_byte, int16_of_bytes. cbv zeta.
  destruct (Z.ltb_spec (byte_val lo + 256 * byte_val hi) 32768) as [Hu|Hu].
  - split.
    + rewrite <- byte_of_Z_mod, split_lo by lia. apply byte_of_val.
    + rewrite split_hi by lia. apply byte_of_val.
  - replace (byte_val lo + 256 * byte_val hi - 65536)
      with (byte_val lo + 256 * (byte_val hi - 256)) by lia.
    split.
    + rewrite <- byte_of_Z_mod, split_lo by lia. apply byte_of_val.
    + rewrite split_hi by lia. rewrite <- byte_of_Z_mod.
      replace (byte_val hi - 256) with (byte_val hi + (-1) * 256) by lia.
      rewrite Z.mod_add by lia. rewrite Z.mod_small by lia.
      apply byte_of_val.
Qed.

Lemma length_bytes_of_samples ss :
  length (bytes_of_samples ss) = (2 * length ss)%nat.
Proof. induction ss as [|s ss IH]; simpl; lia. Qed.

Lemma length_overwrite old new : length (overwrite old new) = length old.
Proof.
  unfold overwrite. rewrite length_take, length_app, length_drop. lia.
Qed.

(** Re-encoding the samples read from a buffer gives back its even-length
    prefix, so storing them in place leaves the buffer as it was. *)
Lemma overwrite_samples_of_bytes bs :
  overwrite bs (bytes_of_samples (samples_of_bytes bs)) = bs.
Proof.
  unfold overwrite.
  assert (Hgen : forall n (l : list byte), (length l <= n)%nat ->
    bytes_of_samples (samples_of_bytes l)
      ++ drop (length (bytes_of_samples (samples_of_bytes l))) l = l).
  { induction n as [|n IH]; intros l Hl.
    - destruct l; [reflexivity | simpl in Hl; lia].
    - destruct l as [|lo [|hi rest]]; try reflexivity.
      simpl in Hl. cbn [samples_of_bytes bytes_of_samples length drop app].
      destruct (int16_bytes_roundtrip lo hi) as [-> ->].
      f_equal. f_equal. apply IH. lia. }
  rewrite (Hgen (length bs) bs) by lia.
  apply firstn_all.
Qed.


End PCMFacts.

(** ** The wrapper *)

Section WrapperFacts.

Context {dsp : SpeexDSP}.


Lemma ctl_live this w h s request :
  state this = Some h -> w_speex w !! h = Some s ->
  ctl request (this, w)
  = (Returns tt,
     (this, log (EvCtl h request) (set_speex (insert h (dsp_ctl s request)) w))).
Proof.
  intros Hst Hs. unfold ctl, bind, this_state, gets, ext, speex_preprocess_ctl.
  simpl. rewrite Hst, Hs. reflexivity.
Qed.

Lemma log_set_speex_lookup e f (w : world) h :
  w_speex (log e (set_speex f w)) !! h = f (w_speex w) !! h.
Proof. reflexivity. Qed.

Lemma configure_live ag ns this w h s :
  state this = Some h -> w_speex w !! h = Some s ->
  (ctl (SPEEX_PREPROCESS_SET_DENOISE (if ns =? 0 then 0 else 1));;;
   (if negb (ns =? 0)
    then ctl (SPEEX_PREPROCESS_SET_NOISE_SUPPRESS ns)
    else ret ());;;
   ctl (SPEEX_PREPROCESS_SET_AGC (if positive_float ag then 1 else 0));;;
   (if positive_float ag
    then ctl (SPEEX_PREPROCESS_SET_AGC_LEVEL ag)
    else ret ())) (this, w)
  = (Returns tt, (this, configured h s (ctl_requests ag ns) w)).
Proof.
  intros Hst Hs. unfold bind, ctl_requests.
  rewrite (ctl_live _ _ h s) by assumption.
  destruct (ns =? 0), (positive_float ag); cbn [negb];
    repeat first
      [ progress (unfold ret; cbv beta iota)
      | erewrite ctl_live;
        [| eassumption
         | rewrite log_set_speex_lookup; apply lookup_insert_eq] ];
    unfold configured, log, set_speex; cbn;
    rewrite ?insert_insert_eq, <- ?app_assoc; reflexivity.
Qed.

Lemma ctor_closed n ag ns w :
  AudioProcessor_ctor n ag ns w =
    if n <=? 0 then
      (Throws (std_invalid_argument "chunk_size_samples must be positive."), w)
    else
      match w_budget w, dsp_state_init n 16000 with
      | S k, Some st0 =>
          let h := fresh (dom (w_speex w)) in
          (Returns {| state := Some h; m_chunk_size_samples := n;
                      m_chunk_size_bytes := Int.mul n 2 |},
           World (<[h := foldl dsp_ctl st0 (ctl_requests ag ns)]> (w_speex w))
             k (w_mem w)
             (w_trace w ++ EvInit n 16000 (Some h)
                :: map (EvCtl h) (ctl_requests ag ns)))
      | _, _ =>
          (Throws (std_runtime_error
                     "Failed to initialize Speex preprocessor state."),
           log (EvInit n 16000 None) w)
      end.
Proof.
  unfold AudioProcessor_ctor, AudioProcessor_body.
  destruct (n <=? 0) eqn:Hn; [reflexivity|].
  unfold bind at 1. unfold throw_if at 1. unfold ret at 1.
  unfold bind at 1. unfold this_chunk_size_samples, gets. cbn [fst m_chunk_size_samples].
  unfold bind at 1. unfold ext at 1, speex_preprocess_state_init.
  destruct (w_budget w) as [|k] eqn:Hb.
  { reflexivity. }
  destruct (dsp_state_init n 16000) as [st0|] eqn:Hi.
  2:{ reflexivity. }
  cbv zeta. set (h := fresh (dom (w_speex w))).
  unfold bind at 1. unfold set_this_state at 1, modify at 1.
  unfold bind at 1. unfold throw_if at 1.
  rewrite bool_decide_eq_true_2 by eauto. cbn [negb]. unfold ret at 1.
  erewrite configure_live; [| reflexivity | cbn; apply lookup_insert_eq].
  unfold configured, log, set_speex, set_budget; cbn.
  rewrite insert_insert_eq, <- app_assoc. reflexivity.
Qed.

Lemma ProcessChunk_not_1D info this w :
  ndim info <> 1 ->
  ProcessChunk info (this, w)
  = (Throws (std_runtime_error "Input audio must be a 1D bytes array."),
     (this, w)).
Proof.
  intros Hnd. unfold ProcessChunk, bind, throw_if.
  destruct (Z.eqb_spec (ndim info) 1); [contradiction|]. reflexivity.
Qed.

Lemma ProcessChunk_wrong_size info this w :
  ndim info = 1 -> size info <> m_chunk_size_bytes this ->
  ProcessChunk info (this, w)
  = (Throws (std_runtime_error
               (size_mismatch (size info) (m_chunk_size_bytes this))),
     (this, w)).
Proof.
  intros Hnd Hsz. unfold ProcessChunk, bind, throw_if.
  destruct (Z.eqb_spec (ndim info) 1); [|contradiction].
  cbn. destruct (Z.eqb_spec (size info) (m_chunk_size_bytes this));
    [contradiction|]. reflexivity.
Qed.

Lemma ProcessChunk_frame info this w r this' w' :
  ProcessChunk info (this, w) = (r, (this', w')) ->
  this' = this /\ w_budget w' = w_budget w /\
  (forall q, q ∈ dom (w_mem w) -> w_mem w' !! q = w_mem w !! q) /\
  (forall h, state this <> Some h -> w_speex w' !! h = w_speex w !! h) /\
  (w_trace w' = w_trace w \/
   exists h frame, state this = Some h /\
     w_trace w' = w_trace w ++ [EvRun h (fresh (dom (w_mem w))) frame]).
Proof.
  unfold ProcessChunk, bind, throw_if, throw, ret, this_chunk_size_bytes,
    this_chunk_size_samples, this_state, gets, ext, vector_int16, memcpy,
    speex_preprocess_run, py_bytes, vector_delete, modify.
  cbn [fst snd].
  intros H.
  assert (Hfresh : forall q, q ∈ dom (w_mem w) -> q <> fresh (dom (w_mem w))).
  { intros q Hq ->. exact (is_fresh _ Hq). }
  repeat case_match; simplify_eq; cbn in *.
  all: split; [reflexivity|]; split; [reflexivity|].
  all: split;
    [intros q Hq; specialize (Hfresh q Hq);
     rewrite ?lookup_delete_ne, ?lookup_insert_ne by congruence; reflexivity|].
  all: split;
    [intros h' Hne; rewrite ?lookup_insert_ne by congruence; reflexivity|].
  all: first [left; reflexivity | right; eauto].
Qed.

Lemma in_bounds_length (buf : list byte) :
  in_bounds (Z.of_nat (length buf)) buf = true.
Proof. unfold in_bounds. rewrite andb_true_iff, !Z.leb_le. lia. Qed.

Lemma ProcessChunk_returns info data this w h s :
  chunk_invariant this ->
  state this = Some h -> w_speex w !! h = Some s ->
  bytes_view w info data -> size info = m_chunk_size_bytes this ->
  ProcessChunk info (this, w)
  = (Returns {| audio := PCM.overwrite data
                  (PCM.bytes_of_samples
                     (dsp_run s (PCM.samples_of_bytes data)).1.2) |},
     (this,
      World (<[h := (dsp_run s (PCM.samples_of_bytes data)).1.1]> (w_speex w))
        (w_budget w) (w_mem w)
        (w_trace w ++ [EvRun h (fresh (dom (w_mem w)))
                         (PCM.samples_of_bytes data)]))).
Proof.
  intros [Hpos Hinv] Hst Hs (Hnd & Hsz & Hmem) Hsize.
  set (p := fresh (dom (w_mem w))).
  assert (Hp : w_mem w !! p = None).
  { apply not_elem_of_dom, is_fresh. }
  assert (Hne : p <> ptr info) by congruence.
  assert (Hlen : m_chunk_size_bytes this = Z.of_nat (length data)) by lia.
  assert (Hcount : Z.to_nat (m_chunk_size_bytes this) = length data) by lia.
  assert (Hzeros : Z.to_nat (2 * m_chunk_size_samples this) = length data) by lia.
  assert (Hz : in_bounds (m_chunk_size_bytes this)
                 (replicate (Z.to_nat (2 * m_chunk_size_samples this)) x00)
               = true).
  { rewrite Hzeros, Hlen.
    rewrite <- (length_replicate (length data) x00) at 1.
    apply in_bounds_length. }
  assert (Hd : in_bounds (m_chunk_size_bytes this) data = true).
  { rewrite Hlen. apply in_bounds_length. }
  assert (Ho : forall out, in_bounds (m_chunk_size_bytes this)
                 (PCM.overwrite data out) = true).
  { intros out. rewrite Hlen.
    rewrite <- (PCMFacts.length_overwrite data out) at 1.
    apply in_bounds_length. }
  unfold ProcessChunk, bind, throw_if, throw, ret, this_chunk_size_bytes,
    this_chunk_size_samples, this_state, gets, ext, vector_int16, memcpy,
    speex_preprocess_run, py_bytes, vector_delete, modify, log, set_mem,
    set_speex.
  cbn [fst snd w_mem w_speex w_budget w_trace].
  rewrite Hnd, Z.eqb_refl. cbn [negb].
  rewrite Hsize, Z.eqb_refl. cbn [negb fst snd].
  destruct (Z.ltb_spec (m_chunk_size_samples this) 0) as [|_]; [lia|].
  fold p. cbn [fst snd w_mem w_speex w_budget w_trace].
  rewrite lookup_insert_eq, lookup_insert_ne, Hmem by assumption.
  rewrite Hz, Hd. cbn [andb fst snd w_mem w_speex w_budget w_trace].
  rewrite Hst, Hs, lookup_insert_eq.
  rewrite Hcount, firstn_all, drop_ge, app_nil_r
    by (rewrite length_replicate; lia).
  destruct (dsp_run s (PCM.samples_of_bytes data)) as [[s' out] vad].
  cbn [fst snd w_mem w_speex w_budget w_trace].
  rewrite lookup_insert_eq, Ho.
  rewrite take_ge by (rewrite PCMFacts.length_overwrite; lia).
  cbn [fst snd w_mem w_speex w_budget w_trace].
  rewrite !delete_insert_eq, delete_id by assumption. reflexivity.
Qed.

Lemma in_bounds_weaken count (a b : list byte) :
  length a = length b -> in_bounds count a = in_bounds count b.
Proof. unfold in_bounds. intros ->. reflexivity. Qed.

Lemma ProcessChunk_step info data this w h s :
  0 <= m_chunk_size_samples this ->
  state this = Some h -> w_speex w !! h = Some s ->
  bytes_view w info data ->
  exists w',
    ProcessChunk info (this, w) = ((chunk_step this s data).1, (this, w')) /\
    w_speex w' = <[h := (chunk_step this s data).2]> (w_speex w).
Proof.
  intros Hpos Hst Hs (Hnd & Hsz & Hmem). unfold chunk_step. cbv zeta.
  destruct (Z.eqb_spec (Z.of_nat (length data)) (m_chunk_size_bytes this))
    as [Hlen|Hlen]; cbn [negb].
  2:{ exists w. rewrite ProcessChunk_wrong_size by congruence.
      rewrite Hsz. split; [reflexivity|]. cbn. symmetry. by apply insert_id. }
  set (p := fresh (dom (w_mem w))).
  assert (Hp : w_mem w !! p = None).
  { apply not_elem_of_dom, is_fresh. }
  assert (Hne : p <> ptr info) by congruence.
  assert (Hd : in_bounds (m_chunk_size_bytes this) data = true).
  { rewrite <- Hlen. apply in_bounds_length. }
  unfold ProcessChunk, bind, throw_if, throw, ret, this_chunk_size_bytes,
    this_chunk_size_samples, this_state, gets, ext, vector_int16, memcpy,
    speex_preprocess_run, py_bytes, vector_delete, modify, log, set_mem,
    set_speex.
  cbn [fst snd w_mem w_speex w_budget w_trace].
  rewrite Hnd, Z.eqb_refl. cbn [negb].
  rewrite Hsz, Hlen, Z.eqb_refl. cbn [negb fst snd].
  destruct (Z.ltb_spec (m_chunk_size_samples this) 0) as [|_]; [lia|].
  fold p. cbn [fst snd w_mem w_speex w_budget w_trace].
  rewrite lookup_insert_eq, lookup_insert_ne, Hmem by assumption.
  rewrite Hd, andb_true_r.
  destruct (in_bounds (m_chunk_size_bytes this)
              (replicate (Z.to_nat (2 * m_chunk_size_samples this)) x00))
    eqn:Hz.
  2:{ eexists. split; [reflexivity|]. cbn. symmetry. by apply insert_id. }
  cbn [fst snd w_mem w_speex w_budget w_trace].
  rewrite Hst, Hs, lookup_insert_eq.
  set (temp := take _ data ++ drop _ _) in *.
  destruct (dsp_run s (PCM.samples_of_bytes temp)) as [[s' out] vad].
  cbn [fst snd w_mem w_speex w_budget w_trace].
  rewrite lookup_insert_eq.
  assert (Ho : in_bounds (m_chunk_size_bytes this)
                 (PCM.overwrite temp (PCM.bytes_of_samples out)) = true).
  { rewrite <- Hz. apply in_bounds_weaken.
    rewrite PCMFacts.length_overwrite. unfold temp.
    rewrite length_app, length_take, length_drop, length_replicate.
    unfold in_bounds in Hz. rewrite andb_true_iff, !Z.leb_le in Hz.
    rewrite length_replicate in Hz. lia. }
  rewrite Ho. cbn [fst snd w_mem w_speex w_budget w_trace].
  eexists. split; reflexivity.
Qed.

End WrapperFacts.

(** ** The claims of the specification *)

Ltac in_requests :=
  repeat match goal with
    | H : _ \/ _ |- _ => destruct H
    | H : _ /\ _ |- _ => destruct H
    | H : False |- _ => destruct H
    | H : ?c _ = ?c _ |- _ => injection H as <-
    | H : _ = _ :> ctl_request |- _ => discriminate H
    | H : _ = _ :> bool |- _ => discriminate H
    end;
  subst; try contradiction; auto 8.

Section Claims.

Context {dsp : SpeexDSP}.


Lemma not_1D_not_ShapeMismatch :
  ~ ShapeMismatch (std_runtime_error "Input audio must be a 1D bytes array.").
Proof.
  intros (got & expected & H). unfold size_mismatch in H. cbn in H.
  discriminate H.
Qed.

Lemma ProcessChunk_throws info this w e s' :
  ProcessChunk info (this, w) = (Throws e, s') ->
  (ndim info <> 1 /\
   e = std_runtime_error "Input audio must be a 1D bytes array.") \/
  (ndim info = 1 /\ size info <> m_chunk_size_bytes this /\
   e = std_runtime_error (size_mismatch (size info) (m_chunk_size_bytes this))) \/
  (m_chunk_size_samples this < 0 /\ exists what, e = std_length_error what).
Proof.
  destruct (Z.eq_dec (ndim info) 1) as [Hnd|Hnd].
  2:{ rewrite ProcessChunk_not_1D by assumption. intros [= <- <-]. auto. }
  destruct (Z.eq_dec (size info) (m_chunk_size_bytes this)) as [Hsz|Hsz].
  2:{ rewrite ProcessChunk_wrong_size by assumption. intros [= <- <-]. auto. }
  unfold ProcessChunk, bind, throw_if, throw, ret, this_chunk_size_bytes,
    this_chunk_size_samples, this_state, gets, ext, vector_int16, memcpy,
    speex_preprocess_run, py_bytes, vector_delete, modify.
  cbn [fst snd]. rewrite Hnd, Z.eqb_refl. cbn [negb fst snd].
  rewrite Hsz, Z.eqb_refl. cbn [negb fst snd].
  destruct (Z.ltb_spec (m_chunk_size_samples this) 0) as [Hneg|Hneg].
  { intros [= <- <-]. right. right. eauto. }
  intros H. exfalso.
  repeat case_match; simplify_eq.
Qed.

(** C1.  For an instance satisfying the data-model invariant and an input
    that is a byte sequence: when its length differs from
    [chunk_size_samples * 2] the call fails with ShapeMismatch (and changes
    nothing), whether the input is shorter or longer; when its length is
    exactly [chunk_size_samples * 2] the call raises no ShapeMismatch. *)
Theorem ProcessChunk_shape_mismatch this w info data :
  chunk_invariant this -> bytes_view w info data ->
  (Z.of_nat (length data) <> m_chunk_size_samples this * 2 ->
   exists e, ProcessChunk info (this, w) = (Throws e, (this, w)) /\
             ShapeMismatch e) /\
  (Z.of_nat (length data) = m_chunk_size_samples this * 2 ->
   forall e s', ProcessChunk info (this, w) = (Throws e, s') ->
                ~ ShapeMismatch e).
Proof.
  intros [Hpos Hinv] (Hnd & Hsz & Hmem). split.
  - intros Hlen. eexists. split.
    + apply ProcessChunk_wrong_size; [assumption | lia].
    + red. eauto.
  - intros Hlen e s' H.
    apply ProcessChunk_throws in H as [[Hn _]|[(_ & Hn & _)|[Hn _]]]; lia.
Qed.

(** C10.  An input whose buffer view is not one-dimensional makes
    [ProcessChunk] fail with the runtime error "Input audio must be a 1D
    bytes array.", which is none of the three named error kinds; the object
    and the world are left as they were, so the failure precedes the length
    check, the copy and the call into the library. *)
Theorem ProcessChunk_rejects_non_1D info this w :
  ndim info <> 1 ->
  exists e,
    ProcessChunk info (this, w) = (Throws e, (this, w)) /\
    e = std_runtime_error "Input audio must be a 1D bytes array." /\
    ~ InvalidArgument e /\ ~ InitializationFailure e /\ ~ ShapeMismatch e.
Proof.
  intros Hnd. eexists. split; [by apply ProcessChunk_not_1D|].
  split; [reflexivity|]. split; [|split].
  - intros [what H]. discriminate H.
  - intros H. discriminate H.
  - apply not_1D_not_ShapeMismatch.
Qed.

(** C2.  On a ready instance, a correctly sized byte sequence makes
    [ProcessChunk] return a [ProcessedAudioChunk], the record whose only
    field [audio] is a byte sequence, of exactly [chunk_size_samples * 2]
    bytes, the length of the input. *)
Theorem ProcessChunk_result_length this w info data :
  ready this w -> bytes_view w info data ->
  Z.of_nat (length data) = m_chunk_size_samples this * 2 ->
  exists out w',
    ProcessChunk info (this, w) = (Returns out, (this, w')) /\
    Z.of_nat (length (audio out)) = m_chunk_size_samples this * 2 /\
    length (audio out) = length data.
Proof.
  intros [Hinv (h & Hst & [s Hs])] Hview Hlen.
  pose proof Hview as (Hnd & Hsz & Hmem).
  destruct Hinv as [Hpos Hb].
  eexists _, _. split.
  - eapply ProcessChunk_returns; eauto; [split; assumption | lia].
  - cbn. rewrite PCMFacts.length_overwrite. split; [lia | reflexivity].
Qed.

(** C3.  Construction fails with InvalidArgument if and only if
    [chunk_size_samples] is not positive; in that case the world is returned
    unchanged: no preprocessor state was allocated and the library was not
    called. *)
Theorem ctor_invalid_argument n ag ns w :
  ((exists e w', AudioProcessor_ctor n ag ns w = (Throws e, w') /\
                 InvalidArgument e) <-> n <= 0) /\
  (n <= 0 ->
   AudioProcessor_ctor n ag ns w
   = (Throws (std_invalid_argument "chunk_size_samples must be positive."), w)).
Proof.
  rewrite ctor_closed. destruct (Z.leb_spec n 0) as [Hn|Hn].
  - split; [|reflexivity]. split; [intros _; assumption|].
    intros _. eexists _, _. split; [reflexivity|]. red. eauto.
  - split; [|lia]. split; [|lia].
    intros (e & w' & H & [what ->]).
    destruct (w_budget w), (dsp_state_init n 16000); discriminate H.
Qed.


(** C4, amended.  For every positive [chunk_size_samples]: if the library
    can allocate the preprocessor state, construction succeeds, the instance
    owns a live state and stores the sample count, and its byte-chunk size
    equals [chunk_size_samples * 2] whenever that product fits an [int]
    ([chunk_size_samples <= 1073741823]); if the library cannot allocate,
    construction fails with InitializationFailure. *)
Theorem ctor_succeeds_when_allocated n ag ns w :
  0 < n ->
  (can_allocate w n ->
   exists this w',
     AudioProcessor_ctor n ag ns w = (Returns this, w') /\
     m_chunk_size_samples this = n /\ owns_state this w' /\
     (n <= 1073741823 -> m_chunk_size_bytes this = n * 2)) /\
  (~ can_allocate w n ->
   exists e w',
     AudioProcessor_ctor n ag ns w = (Throws e, w') /\ InitializationFailure e).
Proof.
  intros Hn. rewrite ctor_closed. destruct (Z.leb_spec n 0) as [|_]; [lia|].
  unfold can_allocate.
  destruct (w_budget w) as [|k], (dsp_state_init n 16000) as [st0|]; split.
  all: try (intros [Hb [st Hi]]; congruence).
  all: try (intros _; eexists _, _; split; [reflexivity|]; reflexivity).
  - intros _. eexists _, _. split; [reflexivity|]. cbn.
    split; [reflexivity|]. split.
    + eexists. split; [reflexivity|]. cbn. rewrite lookup_insert_eq. eauto.
    + intros Hmax. unfold Int.mul. rewrite IntFacts.wrap_small; [lia|].
      unfold Int.in_range, Int.min_signed, Int.max_signed. lia.
  - intros H. exfalso. apply H. split; [lia | eauto].
Qed.

Lemma ctor_returns n ag ns w this w' :
  AudioProcessor_ctor n ag ns w = (Returns this, w') ->
  0 < n /\
  exists k st0,
    w_budget w = S k /\ dsp_state_init n 16000 = Some st0 /\
    this = {| state := Some (fresh (dom (w_speex w)));
              m_chunk_size_samples := n;
              m_chunk_size_bytes := Int.mul n 2 |} /\
    w' = World (<[fresh (dom (w_speex w))
                  := foldl dsp_ctl st0 (ctl_requests ag ns)]> (w_speex w))
           k (w_mem w)
           (w_trace w ++ EvInit n 16000 (Some (fresh (dom (w_speex w))))
              :: map (EvCtl (fresh (dom (w_speex w)))) (ctl_requests ag ns)).
Proof.
  rewrite ctor_closed. destruct (Z.leb_spec n 0) as [|Hn]; [discriminate|].
  destruct (w_budget w) as [|k], (dsp_state_init n 16000) as [st0|];
    try discriminate.
  intros [= <- <-]. split; [assumption|]. eexists _, _. eauto.
Qed.

Lemma positive_float_spec f :
  positive_float f = true <->
  f = S754_infinity false \/ exists m e, f = S754_finite false m e.
Proof.
  unfold positive_float, SFltb. split.
  - destruct f as [s|s| |s m e]; try destruct s; cbn; try discriminate; eauto.
  - intros [->|(m & e & ->)]; reflexivity.
Qed.

(** C6.  A successful construction issues exactly these control requests
    on the new state: SET_DENOISE with 1 if [noise_suppression <> 0] and with
    0 otherwise; SET_NOISE_SUPPRESS, carrying [noise_suppression], only when
    [noise_suppression <> 0]; SET_AGC with 1 if [auto_gain > 0] and with 0
    otherwise; SET_AGC_LEVEL, carrying [auto_gain], only when
    [auto_gain > 0].  The state the instance owns is the initial state after
    these requests. *)
Theorem ctor_configures n ag ns w this w' :
  AudioProcessor_ctor n ag ns w = (Returns this, w') ->
  exists h calls,
    state this = Some h /\
    w_trace w' = w_trace w ++ EvInit n 16000 (Some h) :: map (EvCtl h) calls /\
    (forall v, In (SPEEX_PREPROCESS_SET_DENOISE v) calls <->
               (v = 1 /\ ns <> 0) \/ (v = 0 /\ ns = 0)) /\
    (forall v, In (SPEEX_PREPROCESS_SET_NOISE_SUPPRESS v) calls <->
               ns <> 0 /\ v = ns) /\
    (forall v, In (SPEEX_PREPROCESS_SET_AGC v) calls <->
               (v = 1 /\ positive_float ag = true) \/
               (v = 0 /\ positive_float ag = false)) /\
    (forall v, In (SPEEX_PREPROCESS_SET_AGC_LEVEL v) calls <->
               positive_float ag = true /\ v = ag) /\
    exists st0, dsp_state_init n 16000 = Some st0 /\
                w_speex w' !! h = Some (foldl dsp_ctl st0 calls).
Proof.
  intros H. apply ctor_returns in H as (Hn & k & st0 & Hb & Hi & -> & ->).
  exists (fresh (dom (w_speex w))), (ctl_requests ag ns). cbn.
  split; [reflexivity|]. split; [reflexivity|].
  repeat split.
  all: try (eexists; split; [eassumption | apply lookup_insert_eq]).
  all: unfold ctl_requests;
    destruct (Z.eqb_spec ns 0), (positive_float ag);
    intros; simpl in *; in_requests.
Qed.


Lemma dtor_sizes this w r this' w' :
  AudioProcessor_dtor (this, w) = (r, (this', w')) ->
  m_chunk_size_samples this' = m_chunk_size_samples this /\
  m_chunk_size_bytes this' = m_chunk_size_bytes this.
Proof.
  unfold AudioProcessor_dtor, bind, this_state, gets, ext,
    speex_preprocess_state_destroy, set_this_state, modify, ret.
  cbn [fst snd]. intros H.
  repeat case_match; simplify_eq; cbn; auto.
Qed.

Lemma run_op_sizes op this w :
  m_chunk_size_samples (run_op op (this, w)).2.1 = m_chunk_size_samples this /\
  m_chunk_size_bytes (run_op op (this, w)).2.1 = m_chunk_size_bytes this.
Proof.
  destruct op as [info|]; unfold run_op, bind.
  - destruct (ProcessChunk info (this, w)) as [o [this' w']] eqn:E.
    apply ProcessChunk_frame in E as [-> _].
    destruct o; cbn; auto.
  - destruct (AudioProcessor_dtor (this, w)) as [o [this' w']] eqn:E.
    apply dtor_sizes in E. destruct o; cbn; auto.
Qed.

Lemma run_ops_sizes ops this w :
  m_chunk_size_samples (run_ops ops (this, w)).1 = m_chunk_size_samples this /\
  m_chunk_size_bytes (run_ops ops (this, w)).1 = m_chunk_size_bytes this.
Proof.
  revert this w. induction ops as [|op ops IH]; intros this w; [auto|].
  cbn [run_ops]. destruct (run_op_sizes op this w) as [Hs Hb].
  destruct (run_op op (this, w)) as [o [this' w']]. cbn [fst snd] in *.
  destruct (IH this' w') as [Hs' Hb']. split; congruence.
Qed.

(** The operations never modify the two sizes, so they keep the data-model
    invariant of an instance that has it. *)
Lemma chunk_invariant_preserved ops this w :
  chunk_invariant this ->
  m_chunk_size_samples (run_ops ops (this, w)).1 = m_chunk_size_samples this /\
  m_chunk_size_bytes (run_ops ops (this, w)).1 = m_chunk_size_bytes this /\
  chunk_invariant (run_ops ops (this, w)).1.
Proof.
  intros [Hpos Hinv]. destruct (run_ops_sizes ops this w) as [Hs Hb].
  split; [assumption|]. split; [assumption|].
  unfold chunk_invariant. rewrite Hs, Hb. auto.
Qed.



Lemma ProcessChunk_ran info this w r this' w' :
  ProcessChunk info (this, w) = (r, (this', w')) ->
  w_trace w' <> w_trace w ->
  ndim info = 1 /\ size info = m_chunk_size_bytes this /\
  exists h s, state this = Some h /\ w_speex w !! h = Some s.
Proof.
  intros H Htr.
  destruct (Z.eq_dec (ndim info) 1) as [Hnd|Hnd].
  2:{ rewrite ProcessChunk_not_1D in H by assumption. congruence. }
  destruct (Z.eq_dec (size info) (m_chunk_size_bytes this)) as [Hsz|Hsz].
  2:{ rewrite ProcessChunk_wrong_size in H by assumption. congruence. }
  split; [assumption|]. split; [assumption|].
  revert H. unfold ProcessChunk, bind, throw_if, throw, ret,
    this_chunk_size_bytes, this_chunk_size_samples, this_state, gets, ext,
    vector_int16, memcpy, speex_preprocess_run, py_bytes, vector_delete, modify.
  cbn [fst snd]. intros H.
  repeat case_match; simplify_eq; cbn in *; try congruence; eauto.
Qed.

Lemma length_samples_of_bytes k (bs : list byte) :
  length bs = (2 * k)%nat -> length (PCM.samples_of_bytes bs) = k.
Proof.
  revert bs. induction k as [|k IH]; intros bs Hl.
  - destruct bs; [reflexivity | discriminate Hl].
  - destruct bs as [|lo [|hi rest]]; cbn in Hl; try lia.
    cbn. f_equal. apply IH. lia.
Qed.

(** C7.  Whatever the outcome of [ProcessChunk], the caller's byte
    sequence, and every buffer that existed before the call, is unchanged
    afterwards; the only buffer handed to the library's in-place routine is at
    a fresh address, different from the caller's, and holds a copy of the
    input as [chunk_size_samples] 16-bit samples. *)
Theorem ProcessChunk_isolates_input this w info data r this' w' :
  chunk_invariant this -> bytes_view w info data ->
  ProcessChunk info (this, w) = (r, (this', w')) ->
  w_mem w' !! ptr info = Some data /\
  (forall q, q ∈ dom (w_mem w) -> w_mem w' !! q = w_mem w !! q) /\
  exists calls,
    w_trace w' = w_trace w ++ calls /\
    forall h x frame, In (EvRun h x frame) calls ->
      (x ∉ dom (w_mem w)) /\ x <> ptr info /\
      frame = PCM.samples_of_bytes data /\
      Z.of_nat (length frame) = m_chunk_size_samples this.
Proof.
  intros Hinv Hview Hrun. pose proof Hview as (Hnd & Hsz & Hmem).
  assert (Hin : ptr info ∈ dom (w_mem w)) by (by eapply elem_of_dom_2).
  destruct (ProcessChunk_frame _ _ _ _ _ _ Hrun)
    as (-> & _ & Hframe & _ & Htrace).
  split; [rewrite Hframe by assumption; assumption|].
  split; [assumption|].
  destruct Htrace as [Heq|(h & frame & Hst & Heq)].
  - exists []. rewrite app_nil_r. split; [assumption|]. intros ? ? ? [].
  - eexists. split; [eassumption|].
    intros h' x frame' [[= <- <- <-]|[]].
    assert (Htr : w_trace w' <> w_trace w).
    { rewrite Heq. intros E. apply (f_equal length) in E.
      rewrite length_app in E. cbn in E. lia. }
    destruct (ProcessChunk_ran _ _ _ _ _ _ Hrun Htr)
      as (_ & Hsize & h2 & s & Hst2 & Hs).
    rewrite (ProcessChunk_returns _ data _ _ h2 s) in Hrun by assumption.
    injection Hrun as _ Hw. subst w'. cbn in Heq.
    apply app_inv_head in Heq. injection Heq as _ Hf.
    split; [apply is_fresh|]. split.
    + intros E. apply (is_fresh (dom (w_mem w))). rewrite E. assumption.
    + split; [congruence|]. rewrite <- Hf.
      destruct Hinv as [Hpos Hb].
      rewrite (length_samples_of_bytes (Z.to_nat (m_chunk_size_samples this)));
        lia.
Qed.


Lemma call_ProcessChunk_step data this w h s :
  0 <= m_chunk_size_samples this ->
  state this = Some h -> w_speex w !! h = Some s ->
  exists w',
    call_ProcessChunk data (this, w) = ((chunk_step this s data).1, (this, w')) /\
    w_speex w' = <[h := (chunk_step this s data).2]> (w_speex w).
Proof.
  intros Hpos Hst Hs. unfold call_ProcessChunk, bind, ext, bytes_object.
  cbn [fst snd].
  set (p := fresh (dom (w_mem w))).
  destruct (ProcessChunk_step
              {| ptr := p; size := Z.of_nat (length data); ndim := 1 |}
              data this (set_mem (insert p data) w) h s)
    as (w' & E & Hw'); try assumption.
  { split; [reflexivity|]. split; [reflexivity|]. cbn. apply lookup_insert_eq. }
  exists w'. split; [exact E | exact Hw'].
Qed.

Lemma feed_solo chunks this w h s :
  0 <= m_chunk_size_samples this ->
  state this = Some h -> w_speex w !! h = Some s ->
  feed chunks (this, w) = solo this s chunks.
Proof.
  intros Hpos Hst. revert w s.
  induction chunks as [|data rest IH]; intros w s Hs; [reflexivity|].
  cbn [feed solo].
  destruct (call_ProcessChunk_step data this w h s Hpos Hst Hs)
    as (w' & -> & Hw').
  f_equal. apply IH. rewrite Hw'. apply lookup_insert_eq.
Qed.

Lemma of_instance_cons {A} i j (x : A) l :
  of_instance i ((j, x) :: l)
  = if who_eqb j i then x :: of_instance i l else of_instance i l.
Proof. reflexivity. Qed.

Lemma run_schedule_solo schedule a b w ha hb sa sb :
  0 <= m_chunk_size_samples a -> 0 <= m_chunk_size_samples b ->
  state a = Some ha -> state b = Some hb -> ha <> hb ->
  w_speex w !! ha = Some sa -> w_speex w !! hb = Some sb ->
  of_instance First (run_schedule a b schedule w)
  = solo a sa (of_instance First schedule) /\
  of_instance Second (run_schedule a b schedule w)
  = solo b sb (of_instance Second schedule).
Proof.
  intros Hpa Hpb Hsta Hstb Hne. revert w sa sb.
  induction schedule as [|[[] data] rest IH]; intros w sa sb Ha Hb;
    [split; reflexivity| |].
  - cbn [run_schedule].
    destruct (call_ProcessChunk_step data a w ha sa Hpa Hsta Ha)
      as (w' & -> & Hw').
    rewrite !of_instance_cons. cbn [who_eqb solo].
    destruct (IH w' (chunk_step a sa data).2 sb) as [IH1 IH2].
    + rewrite Hw'. apply lookup_insert_eq.
    + rewrite Hw', lookup_insert_ne by assumption. assumption.
    + rewrite IH1, IH2. split; reflexivity.
  - cbn [run_schedule].
    destruct (call_ProcessChunk_step data b w hb sb Hpb Hstb Hb)
      as (w' & -> & Hw').
    rewrite !of_instance_cons. cbn [who_eqb solo].
    destruct (IH w' sa (chunk_step b sb data).2) as [IH1 IH2].
    + rewrite Hw', lookup_insert_ne by congruence. assumption.
    + rewrite Hw'. apply lookup_insert_eq.
    + rewrite IH1, IH2. split; reflexivity.
Qed.

Lemma solo_sizes a b s chunks :
  m_chunk_size_samples a = m_chunk_size_samples b ->
  m_chunk_size_bytes a = m_chunk_size_bytes b ->
  solo a s chunks = solo b s chunks.
Proof.
  intros Hs Hb. revert s. induction chunks as [|data rest IH]; intros s;
    [reflexivity|].
  cbn [solo]. unfold chunk_step. rewrite Hs, Hb. f_equal. apply IH.
Qed.

(** C9.  Two instances constructed with identical parameters own different
    preprocessor states, and when both are sent the same sequence of chunks,
    in any interleaving of their calls in one world, they return the same
    sequence of results. *)
Theorem two_instances_agree n ag ns w0 a w1 b w2 schedule :
  AudioProcessor_ctor n ag ns w0 = (Returns a, w1) ->
  AudioProcessor_ctor n ag ns w1 = (Returns b, w2) ->
  of_instance First schedule = of_instance Second schedule ->
  state a <> state b /\
  of_instance First (run_schedule a b schedule w2)
  = of_instance Second (run_schedule a b schedule w2).
Proof.
  intros Ha Hb Hsame.
  apply ctor_returns in Ha as (Hn & ka & sta & _ & Hia & -> & ->).
  apply ctor_returns in Hb as (_ & kb & stb & _ & Hib & -> & ->).
  cbn [w_speex] in *. rewrite Hia in Hib. injection Hib as <-.
  set (ha := fresh (dom (w_speex w0))).
  set (cfg := foldl dsp_ctl sta (ctl_requests ag ns)).
  set (hb := fresh (dom (<[ha:=cfg]> (w_speex w0)))).
  assert (Hne : ha <> hb).
  { intros E. apply (is_fresh (dom (<[ha:=cfg]> (w_speex w0)))).
    fold hb. rewrite <- E. apply elem_of_dom. rewrite lookup_insert_eq. eauto. }
  split; [cbn; congruence|].
  edestruct (run_schedule_solo schedule) as [-> ->].
  - cbn. lia.
  - cbn. lia.
  - reflexivity.
  - reflexivity.
  - exact Hne.
  - cbn. rewrite lookup_insert_ne by congruence. apply lookup_insert_eq.
  - cbn. apply lookup_insert_eq.
  - rewrite Hsame. apply solo_sizes; reflexivity.
Qed.


Section PassThroughFacts.

Context {pt : PassThrough dsp}.

Lemma chunk_step_idle this s data :
  chunk_invariant this -> idle s ->
  idle (chunk_step this s data).2 /\
  (Z.of_nat (length data) = m_chunk_size_samples this * 2 ->
   (chunk_step this s data).1 = Returns {| audio := data |}).
Proof.
  intros [Hpos Hinv] [Hd Ha]. unfold chunk_step. cbv zeta.
  destruct (Z.eqb_spec (Z.of_nat (length data)) (m_chunk_size_bytes this))
    as [Hlen|Hlen]; cbn [negb].
  2:{ split; [split; assumption | lia]. }
  assert (Hcount : Z.to_nat (m_chunk_size_bytes this) = length data) by lia.
  assert (Hzeros : Z.to_nat (2 * m_chunk_size_samples this) = length data)
    by lia.
  assert (Hz : in_bounds (Z.of_nat (length data))
                 (replicate (length data) x00) = true).
  { rewrite <- (length_replicate (length data) x00) at 1.
    apply in_bounds_length. }
  rewrite Hzeros, <- Hlen, Hz.
  rewrite Nat2Z.id, firstn_all, drop_ge, app_nil_r
    by (rewrite length_replicate; lia).
  pose proof (run_keeps_switches s (PCM.samples_of_bytes data)) as [Hd' Ha'].
  pose proof (run_disabled s (PCM.samples_of_bytes data) Hd Ha) as Hout.
  destruct (dsp_run s (PCM.samples_of_bytes data)) as [[s' out] vad].
  cbn [fst snd] in *. subst out.
  split; [split; congruence|]. intros _.
  rewrite PCMFacts.overwrite_samples_of_bytes, firstn_all. reflexivity.
Qed.

Lemma solo_idle chunks this s i data :
  chunk_invariant this -> idle s ->
  chunks !! i = Some data ->
  Z.of_nat (length data) = m_chunk_size_samples this * 2 ->
  solo this s chunks !! i = Some (Returns {| audio := data |}).
Proof.
  intros Hinv. revert s i.
  induction chunks as [|c rest IH]; intros s i Hidle Hi Hlen; [discriminate|].
  destruct (chunk_step_idle this s c Hinv Hidle) as [Hnext Hout].
  destruct i as [|i]; cbn in Hi |- *.
  - injection Hi as ->. f_equal. apply Hout. assumption.
  - apply IH; assumption.
Qed.

(** C8.  With a library that honours the pass-through contract, an
    instance constructed with [chunk_size_samples = 160], [auto_gain = 0] and
    [noise_suppression = 0] returns, at every call with a correctly sized
    input and whatever calls came before, a chunk identical to that input. *)
Theorem pass_through_160 w0 this w1 chunks i data :
  AudioProcessor_ctor 160 (S754_zero false) 0 w0 = (Returns this, w1) ->
  chunks !! i = Some data ->
  Z.of_nat (length data) = 160 * 2 ->
  feed chunks (this, w1) !! i = Some (Returns {| audio := data |}).
Proof.
  intros Hctor Hi Hlen.
  apply ctor_returns in Hctor as (_ & k & st0 & _ & _ & -> & ->).
  erewrite feed_solo; [| cbn; lia | reflexivity | cbn; apply lookup_insert_eq].
  apply solo_idle; try assumption.
  - split; cbn; [lia | reflexivity].
  - cbn. split.
    + destruct (ctl_set_agc (dsp_ctl st0 (SPEEX_PREPROCESS_SET_DENOISE 0)) 0)
        as [_ ->].
      destruct (ctl_set_denoise st0 0) as [-> _]. reflexivity.
    + destruct (ctl_set_agc (dsp_ctl st0 (SPEEX_PREPROCESS_SET_DENOISE 0)) 0)
        as [-> _]. reflexivity.
Qed.

End PassThroughFacts.

End Claims.

(** ** The claims on concrete inputs *)

Section Witnesses.

Import Demo.

#[local] Existing Instance Gate.dsp.

Lemma demo_invariant : chunk_invariant processor.
Proof. unfold chunk_invariant, processor. cbn. lia. Defined.

Lemma demo_ready data : ready processor (with_bytes data after_ctor).
Proof.
  split; [exact demo_invariant|]. exists 1%positive.
  split; [reflexivity|]. vm_compute. eauto.
Defined.

Lemma demo_view data w : bytes_view (with_bytes data w) (view data) data.
Proof.
  split; [reflexivity|]. split; [reflexivity|]. cbn. apply lookup_insert_eq.
Defined.

Lemma ProcessChunk_shape_mismatch_witness :
  chunk_invariant processor /\
  bytes_view (with_bytes three after_ctor) (view three) three /\
  ((Z.of_nat (length three) <> m_chunk_size_samples processor * 2 ->
    exists e,
      ProcessChunk (view three) (processor, with_bytes three after_ctor)
      = (Throws e, (processor, with_bytes three after_ctor)) /\
      ShapeMismatch e) /\
   (Z.of_nat (length three) = m_chunk_size_samples processor * 2 ->
    forall e s',
      ProcessChunk (view three) (processor, with_bytes three after_ctor)
      = (Throws e, s') -> ~ ShapeMismatch e)).
Proof.
  split; [exact demo_invariant|]. split; [apply demo_view|].
  apply ProcessChunk_shape_mismatch; [exact demo_invariant | apply demo_view].
Defined.

Lemma ProcessChunk_result_length_witness :
  ready processor (with_bytes four after_ctor) /\
  bytes_view (with_bytes four after_ctor) (view four) four /\
  Z.of_nat (length four) = m_chunk_size_samples processor * 2 /\
  exists out w',
    ProcessChunk (view four) (processor, with_bytes four after_ctor)
    = (Returns out, (processor, w')) /\
    Z.of_nat (length (audio out)) = m_chunk_size_samples processor * 2 /\
    length (audio out) = length four.
Proof.
  split; [apply demo_ready|]. split; [apply demo_view|].
  split; [reflexivity|].
  apply ProcessChunk_result_length;
    [apply demo_ready | apply demo_view | reflexivity].
Defined.

Lemma ctor_invalid_argument_witness :
  -3 <= 0 /\
  AudioProcessor_ctor (-3) gain_off 0 (Gate.empty_world 2)
  = (Throws (std_invalid_argument "chunk_size_samples must be positive."),
     Gate.empty_world 2).
Proof.
  split; [lia|].
  apply (proj2 (ctor_invalid_argument (-3) gain_off 0 (Gate.empty_world 2))).
  lia.
Defined.

Lemma can_allocate_160 : can_allocate (Gate.empty_world 2) 160.
Proof. split; [discriminate | vm_compute; eauto]. Defined.

Lemma ctor_succeeds_when_allocated_witness :
  0 < 160 /\ can_allocate (Gate.empty_world 2) 160 /\
  exists this w',
    AudioProcessor_ctor 160 gain_on 7 (Gate.empty_world 2)
    = (Returns this, w') /\
    m_chunk_size_samples this = 160 /\ owns_state this w' /\
    (160 <= 1073741823 -> m_chunk_size_bytes this = 160 * 2).
Proof.
  split; [lia|]. split; [exact can_allocate_160|].
  refine (proj1 (ctor_succeeds_when_allocated 160 gain_on 7
                   (Gate.empty_world 2) _) can_allocate_160).
  lia.
Defined.

(** Counterexample to C4 as stated: a positive chunk size with which
    construction does not succeed, the library's allocator being exhausted. *)
Lemma ctor_fails_when_exhausted :
  0 < 160 /\
  ~ exists this w',
      AudioProcessor_ctor 160 gain_off 0 (Gate.empty_world 0)
      = (Returns this, w') /\
      m_chunk_size_bytes this = 160 * 2.
Proof.
  split; [lia|]. intros (this & w' & H & _). vm_compute in H. discriminate H.
Qed.

(** Beyond [1073741823] samples the byte count stored by the constructor is
    the wrapped [int] product, not twice the sample count. *)
Example ctor_byte_size_wraps :
  (AudioProcessor_ctor 1073741824 gain_off 0 (Gate.empty_world 1)).1
  = Returns {| state := Some 1%positive;
               m_chunk_size_samples := 1073741824;
               m_chunk_size_bytes := -2147483648 |}.
Proof. vm_compute. reflexivity. Qed.



Lemma ctor_configures_witness :
  AudioProcessor_ctor 2 gain_on 7 (Gate.empty_world 2)
  = (Returns processor, after_ctor) /\
  exists h calls,
    state processor = Some h /\
    w_trace after_ctor
    = w_trace (Gate.empty_world 2)
      ++ EvInit 2 16000 (Some h) :: map (EvCtl h) calls /\
    (forall v, In (SPEEX_PREPROCESS_SET_DENOISE v) calls <->
               (v = 1 /\ 7 <> 0) \/ (v = 0 /\ 7 = 0)) /\
    (forall v, In (SPEEX_PREPROCESS_SET_NOISE_SUPPRESS v) calls <->
               7 <> 0 /\ v = 7) /\
    (forall v, In (SPEEX_PREPROCESS_SET_AGC v) calls <->
               (v = 1 /\ positive_float gain_on = true) \/
               (v = 0 /\ positive_float gain_on = false)) /\
    (forall v, In (SPEEX_PREPROCESS_SET_AGC_LEVEL v) calls <->
               positive_float gain_on = true /\ v = gain_on) /\
    exists st0, dsp_state_init 2 16000 = Some st0 /\
                w_speex after_ctor !! h = Some (foldl dsp_ctl st0 calls).
Proof.
  split; [vm_compute; reflexivity|].
  apply (ctor_configures 2 gain_on 7 (Gate.empty_world 2)).
  vm_compute. reflexivity.
Defined.

Lemma ProcessChunk_isolates_input_witness :
  chunk_invariant processor /\
  bytes_view (with_bytes four after_ctor) (view four) four /\
  exists r w',
    ProcessChunk (view four) (processor, with_bytes four after_ctor)
    = (r, (processor, w')) /\
    w_mem w' !! ptr (view four) = Some four /\
    (forall q, q ∈ dom (w_mem (with_bytes four after_ctor)) ->
               w_mem w' !! q = w_mem (with_bytes four after_ctor) !! q) /\
    exists calls,
      w_trace w' = w_trace (with_bytes four after_ctor) ++ calls /\
      forall h x frame, In (EvRun h x frame) calls ->
        (x ∉ dom (w_mem (with_bytes four after_ctor))) /\
        x <> ptr (view four) /\
        frame = PCM.samples_of_bytes four /\
        Z.of_nat (length frame) = m_chunk_size_samples processor.
Proof.
  split; [exact demo_invariant|]. split; [apply demo_view|].
  eexists _, _. split; [vm_compute; reflexivity|].
  eapply (ProcessChunk_isolates_input processor
            (with_bytes four after_ctor) (view four) four);
    [exact demo_invariant | apply demo_view | vm_compute; reflexivity].
Defined.

Lemma two_instances_agree_witness :
  AudioProcessor_ctor 2 gain_on 7 (Gate.empty_world 2)
  = (Returns processor, after_ctor) /\
  AudioProcessor_ctor 2 gain_on 7 after_ctor
  = (Returns second_processor, after_second_ctor) /\
  of_instance First interleaved = of_instance Second interleaved /\
  state processor <> state second_processor /\
  of_instance First
    (run_schedule processor second_processor interleaved after_second_ctor)
  = of_instance Second
      (run_schedule processor second_processor interleaved after_second_ctor).
Proof.
  split; [vm_compute; reflexivity|].
  split; [vm_compute; reflexivity|].
  split; [reflexivity|].
  apply (two_instances_agree 2 gain_on 7 (Gate.empty_world 2) processor
           after_ctor second_processor after_second_ctor interleaved);
    [vm_compute; reflexivity | vm_compute; reflexivity | reflexivity].
Defined.

Lemma ProcessChunk_rejects_non_1D_witness :
  ndim matrix_view <> 1 /\
  exists e,
    ProcessChunk matrix_view (processor, with_bytes four after_ctor)
    = (Throws e, (processor, with_bytes four after_ctor)) /\
    e = std_runtime_error "Input audio must be a 1D bytes array." /\
    ~ InvalidArgument e /\ ~ InitializationFailure e /\ ~ ShapeMismatch e.
Proof.
  split; [discriminate|].
  apply ProcessChunk_rejects_non_1D. discriminate.
Defined.

Lemma pass_through_160_witness :
  AudioProcessor_ctor 160 gain_off 0 (Gate.empty_world 2)
  = (Returns processor_160, after_ctor_160) /\
  [three; chunk_160; chunk_160] !! 2%nat = Some chunk_160 /\
  Z.of_nat (length chunk_160) = 160 * 2 /\
  feed [three; chunk_160; chunk_160] (processor_160, after_ctor_160) !! 2%nat
  = Some (Returns {| audio := chunk_160 |}).
Proof.
  split; [vm_compute; reflexivity|].
  split; [reflexivity|]. split; [reflexivity|].
  apply (pass_through_160 (pt := gate_pass_through) (Gate.empty_world 2)
           processor_160 after_ctor_160 [three; chunk_160; chunk_160] 2%nat
           chunk_160);
    [vm_compute; reflexivity | reflexivity | reflexivity].
Defined.

End Witnesses.

(** ** Beyond the claims: construction, destruction and the stream of calls *)

Module CodecFacts.
Import PCM.

Lemma byte_val_of_Z z : byte_val (byte_of_Z z) = z mod 256.
Proof.
  unfold byte_of_Z, byte_val.
  pose proof (Z.mod_pos_bound z 256 ltac:(lia)) as Hm.
  destruct (Byte.of_N (Z.to_N (z mod 256))) as [b|] eqn:E.
  - apply Byte.to_of_N in E. rewrite E. lia.
  - apply Byte.of_N_None_iff in E. lia.
Qed.

Lemma int16_of_split s : int16_of_bytes (lo_byte s) (hi_byte s) = int16 s.
Proof.
  unfold int16_of_bytes, lo_byte, hi_byte, int16.
  rewrite !byte_val_of_Z.
  replace 65536 with (256 * 256) by reflexivity.
  rewrite Z.rem_mul_r by lia. reflexivity.
Qed.

Lemma samples_of_bytes_of_samples ss :
  samples_of_bytes (bytes_of_samples ss) = map int16 ss.
Proof.
  induction ss as [|s ss IH]; [reflexivity|].
  cbn [bytes_of_samples samples_of_bytes map].
  rewrite int16_of_split, IH. reflexivity.
Qed.

Lemma overwrite_same_length (old new : list byte) :
  length new = length old -> overwrite old new = new.
Proof.
  intros Hl. unfold overwrite.
  rewrite drop_ge, app_nil_r by lia. rewrite <- Hl. apply firstn_all.
Qed.

End CodecFacts.

Section Further.

Context {dsp : SpeexDSP}.

(** X1.  When the byte count [chunk_size_samples * 2] fits an [int], so
    that the member initialiser does not overflow, a construction ends in one
    of three ways and never in undefined behaviour: it returns, which happens
    exactly when the sample count is positive and the library can allocate,
    and then the instance owns a live state; or it throws InvalidArgument
    (sample count not positive); or it throws InitializationFailure (positive
    sample count, no allocation). *)
Theorem ctor_outcomes n ag ns w :
  Int.in_range (n * 2) ->
  match (AudioProcessor_ctor n ag ns w).1 with
  | Returns this =>
      0 < n /\ can_allocate w n /\
      owns_state this (AudioProcessor_ctor n ag ns w).2 /\
      m_chunk_size_bytes this = n * 2
  | Throws e =>
      (n <= 0 /\ InvalidArgument e) \/
      (0 < n /\ ~ can_allocate w n /\ InitializationFailure e)
  | Undefined => False
  end.
Proof.
  intros Hfits. rewrite ctor_closed. unfold can_allocate.
  destruct (Z.leb_spec n 0) as [Hn|Hn].
  - left. split; [assumption|]. red. eauto.
  - destruct (w_budget w) as [|k] eqn:Hb.
    + right. split; [assumption|]. split; [|reflexivity]. intros [H _]. lia.
    + destruct (dsp_state_init n 16000) as [st0|] eqn:Hi.
      * cbn. split; [assumption|]. split; [split; [lia | eauto]|]. split.
        -- eexists. split; [reflexivity|]. cbn. rewrite lookup_insert_eq.
           eauto.
        -- apply IntFacts.wrap_small. assumption.
      * right. split; [assumption|]. split; [|reflexivity].
        intros [_ [st H]]. discriminate H.
Qed.

(** X2.  A construction that throws leaves nothing behind: the live states,
    the allocator's budget and the memory are as before, and the library saw
    at most the one unsuccessful allocation request. *)
Theorem ctor_failure_keeps_world n ag ns w e w' :
  AudioProcessor_ctor n ag ns w = (Throws e, w') ->
  w_speex w' = w_speex w /\ w_budget w' = w_budget w /\
  w_mem w' = w_mem w /\
  (w_trace w' = w_trace w \/ w_trace w' = w_trace w ++ [EvInit n 16000 None]).
Proof.
  rewrite ctor_closed. destruct (n <=? 0).
  - intros [= _ <-]. repeat split; auto.
  - destruct (w_budget w) as [|k] eqn:Hb,
      (dsp_state_init n 16000) as [st0|];
      try discriminate; intros [= _ <-]; cbn; repeat split; auto.
Qed.

(** X3.  The calls a construction makes into the library: none when the
    sample count is not positive; otherwise one allocation request for that
    sample count at 16000 Hz, followed only by control requests on the handle
    it returned.  A construction never runs the preprocessor and never
    destroys a state. *)
Theorem ctor_calls n ag ns w :
  exists calls,
    w_trace (AudioProcessor_ctor n ag ns w).2 = w_trace w ++ calls /\
    (n <= 0 -> calls = []) /\
    (0 < n ->
     exists res requests,
       calls = EvInit n 16000 res :: requests /\
       Forall (fun ev => exists h r, res = Some h /\ ev = EvCtl h r) requests).
Proof.
  rewrite ctor_closed. destruct (Z.leb_spec n 0) as [Hn|Hn].
  - exists []. cbn. rewrite app_nil_r. split; [reflexivity|].
    split; [reflexivity | lia].
  - destruct (w_budget w) as [|k], (dsp_state_init n 16000) as [st0|];
      cbn [snd w_trace log]; eexists; (split; [reflexivity|]);
      (split; [lia|]); intros _; eexists _, _; (split; [reflexivity|]).
    1,2,4: constructor.
    induction (ctl_requests ag ns) as [|r l IH]; constructor; eauto.
Qed.

(** X4.  A successful construction takes a handle that was not live before,
    adds exactly that handle to the live states, leaves every state that was
    live untouched, uses up one unit of the allocator's budget and does not
    touch the memory. *)
Theorem ctor_fresh_handle n ag ns w this w' :
  AudioProcessor_ctor n ag ns w = (Returns this, w') ->
  exists h,
    state this = Some h /\ (h ∉ dom (w_speex w)) /\
    dom (w_speex w') = {[h]} ∪ dom (w_speex w) /\
    (forall h', h' ∈ dom (w_speex w) -> w_speex w' !! h' = w_speex w !! h') /\
    S (w_budget w') = w_budget w /\ w_mem w' = w_mem w.
Proof.
  intros H. apply ctor_returns in H as (Hn & k & st0 & Hb & Hi & -> & ->).
  exists (fresh (dom (w_speex w))). cbn.
  split; [reflexivity|]. split; [apply is_fresh|].
  split; [apply dom_insert_L|]. split.
  - intros h' Hh'. apply lookup_insert_ne. intros <-.
    exact (is_fresh _ Hh').
  - auto.
Qed.

(** X5.  Destroying an instance that owns a live state returns, releases
    exactly that state (every other state stays), gives the allocator its
    unit back, records one destroy call, clears the handle of the instance
    and does not touch the memory. *)
Theorem dtor_releases this w h s :
  state this = Some h -> w_speex w !! h = Some s ->
  exists this' w',
    AudioProcessor_dtor (this, w) = (Returns tt, (this', w')) /\
    state this' = None /\
    w_speex w' = delete h (w_speex w) /\
    w_budget w' = S (w_budget w) /\ w_mem w' = w_mem w /\
    w_trace w' = w_trace w ++ [EvDestroy h].
Proof.
  intros Hst Hs.
  unfold AudioProcessor_dtor, bind, this_state, gets, ext,
    speex_preprocess_state_destroy, set_this_state, modify, ret.
  cbn [fst snd]. rewrite Hst. rewrite bool_decide_eq_true_2 by eauto.
  rewrite Hs. cbn. eexists _, _. split; [reflexivity|]. cbn. auto 10.
Qed.

(** X7.  Construction followed by destruction is a round trip on the
    resources: the live states, the allocator's budget and the memory are
    back to what they were before the construction. *)
Theorem ctor_dtor_round_trip n ag ns w this w1 :
  AudioProcessor_ctor n ag ns w = (Returns this, w1) ->
  exists this' w2,
    AudioProcessor_dtor (this, w1) = (Returns tt, (this', w2)) /\
    state this' = None /\
    w_speex w2 = w_speex w /\ w_budget w2 = w_budget w /\
    w_mem w2 = w_mem w.
Proof.
  intros H. apply ctor_returns in H as (Hn & k & st0 & Hb & Hi & -> & ->).
  match goal with
  | |- context [AudioProcessor_dtor (?t, ?v)] =>
      destruct (dtor_releases t v (fresh (dom (w_speex w)))
                  (foldl dsp_ctl st0 (ctl_requests ag ns)))
        as (this' & w2 & Hd & Hst & Hsp & Hbu & Hme & _);
        [reflexivity | cbn; apply lookup_insert_eq |]
  end.
  exists this', w2. split; [exact Hd|]. split; [exact Hst|].
  cbn in Hsp, Hbu, Hme. rewrite Hsp, Hbu, Hme, Hb.
  rewrite delete_insert_eq, delete_id by apply not_elem_of_dom, is_fresh.
  auto.
Qed.

(** X9.  On a ready instance and a byte sequence of any length, a call
    never ends in undefined behaviour and leaves no buffer behind: the memory
    after the call is the memory before it, the temporary vector is gone, and
    the set of live states and the allocator's budget are unchanged. *)
Theorem ProcessChunk_leaves_no_buffer info data this w r this' w' :
  ready this w -> bytes_view w info data ->
  ProcessChunk info (this, w) = (r, (this', w')) ->
  r <> Undefined /\ w_mem w' = w_mem w /\
  dom (w_speex w') = dom (w_speex w) /\ w_budget w' = w_budget w.
Proof.
  intros [Hinv (h & Hst & [s Hs])] Hview H.
  pose proof Hview as (Hnd & Hsz & Hmem).
  destruct (Z.eq_dec (size info) (m_chunk_size_bytes this)) as [Hsize|Hsize].
  - rewrite (ProcessChunk_returns info data this w h s) in H by assumption.
    injection H as <- _ <-. cbn.
    split; [discriminate|]. split; [reflexivity|]. split; [|reflexivity].
    apply dom_insert_lookup_L. eauto.
  - rewrite ProcessChunk_wrong_size in H by assumption.
    injection H as <- _ <-. split; [discriminate|]. auto.
Qed.

(** X10.  What a successful call returns is what the library left in the
    frame: when the library's routine, run on the input read as 16-bit
    samples, produces one sample per input sample, the returned bytes are the
    low-byte-first encoding of those samples, reading them back as [int16_t]
    gives the samples reduced to 16 bits, and the state behind the handle is
    the one the routine returned. *)
Theorem ProcessChunk_returns_library_frame info data this w h s s' out vad :
  chunk_invariant this ->
  state this = Some h -> w_speex w !! h = Some s ->
  bytes_view w info data -> size info = m_chunk_size_bytes this ->
  dsp_run s (PCM.samples_of_bytes data) = (s', out, vad) ->
  Z.of_nat (length out) = m_chunk_size_samples this ->
  exists chunk w',
    ProcessChunk info (this, w) = (Returns chunk, (this, w')) /\
    audio chunk = PCM.bytes_of_samples out /\
    PCM.samples_of_bytes (audio chunk) = map int16 out /\
    w_speex w' !! h = Some s'.
Proof.
  intros Hinv Hst Hs Hview Hsize Hrun Hout.
  rewrite (ProcessChunk_returns info data this w h s) by assumption.
  rewrite Hrun. cbn [fst snd].
  destruct Hinv as [Hpos Hb]. destruct Hview as (_ & Hsz & _).
  rewrite CodecFacts.overwrite_same_length
    by (rewrite PCMFacts.length_bytes_of_samples; lia).
  eexists _, _. split; [reflexivity|]. cbn.
  split; [reflexivity|].
  split; [apply CodecFacts.samples_of_bytes_of_samples|].
  apply lookup_insert_eq.
Qed.

Lemma ctor_byte_count_even n : exists k, Int.mul n 2 = 2 * k.
Proof.
  unfold Int.mul, Int.wrap.
  pose proof (Z.div_mod (n * 2 + 2147483648) 4294967296 ltac:(lia)) as Hd.
  exists (n + 1073741824 - 2147483648 * ((n * 2 + 2147483648) / 4294967296)
          - 1073741824).
  lia.
Qed.

(** X11.  An instance that came out of the constructor rejects every byte
    sequence of odd length with ShapeMismatch, in whatever world it is called:
    the byte count it stores is even. *)
Theorem constructed_rejects_odd_length n ag ns w0 this w1 w info data :
  AudioProcessor_ctor n ag ns w0 = (Returns this, w1) ->
  bytes_view w info data ->
  Z.odd (Z.of_nat (length data)) = true ->
  exists e,
    ProcessChunk info (this, w) = (Throws e, (this, w)) /\ ShapeMismatch e.
Proof.
  intros Hctor (Hnd & Hsz & _) Hodd.
  apply ctor_returns in Hctor as (_ & k & st0 & _ & _ & -> & _).
  eexists. split.
  - apply ProcessChunk_wrong_size; [assumption|]. cbn.
    destruct (ctor_byte_count_even n) as [m Hm].
    intros E. rewrite <- Hsz, E, Hm in Hodd.
    rewrite Z.odd_mul in Hodd. discriminate Hodd.
  - red. eauto.
Qed.

(** X12.  An instance constructed with an [int] sample count rejects the
    empty byte sequence with ShapeMismatch. *)
Theorem constructed_rejects_empty n ag ns w0 this w1 w info :
  Int.in_range n ->
  AudioProcessor_ctor n ag ns w0 = (Returns this, w1) ->
  bytes_view w info [] ->
  exists e,
    ProcessChunk info (this, w) = (Throws e, (this, w)) /\ ShapeMismatch e.
Proof.
  intros Hrange Hctor (Hnd & Hsz & _).
  apply ctor_returns in Hctor as (Hn & k & st0 & _ & _ & -> & _).
  eexists. split.
  - apply ProcessChunk_wrong_size; [assumption|]. cbn. rewrite Hsz. cbn.
    unfold Int.mul, Int.wrap.
    unfold Int.in_range, Int.min_signed, Int.max_signed in Hrange.
    pose proof (Z.div_mod (n * 2 + 2147483648) 4294967296 ltac:(lia)) as Hd.
    pose proof (Z.mod_pos_bound (n * 2 + 2147483648) 4294967296 ltac:(lia)).
    intros E.
    assert (Hq : (n * 2 + 2147483648) / 4294967296 = 0
                 \/ (n * 2 + 2147483648) / 4294967296 = 1) by lia.
    destruct Hq as [Hq|Hq]; rewrite Hq in Hd; lia.
  - red. eauto.
Qed.

(** X13.  With the [int] product wrapping around, an instance constructed
    with more than 1073741823 samples per chunk stores a negative byte count
    and rejects every byte sequence with ShapeMismatch. *)
Theorem oversized_instance_rejects_all n ag ns w0 this w1 w info data :
  Int.in_range n -> 1073741823 < n ->
  AudioProcessor_ctor n ag ns w0 = (Returns this, w1) ->
  bytes_view w info data ->
  m_chunk_size_bytes this < 0 /\
  exists e,
    ProcessChunk info (this, w) = (Throws e, (this, w)) /\ ShapeMismatch e.
Proof.
  intros Hrange Hbig Hctor (Hnd & Hsz & _).
  apply ctor_returns in Hctor as (Hn & k & st0 & _ & _ & -> & _).
  assert (Hneg : Int.mul n 2 < 0).
  { unfold Int.mul, Int.wrap.
    unfold Int.in_range, Int.min_signed, Int.max_signed in Hrange.
    replace (n * 2 + 2147483648)
      with (n * 2 - 2147483648 + 1 * 4294967296) by lia.
    rewrite Z.mod_add by lia. rewrite Z.mod_small by lia. lia. }
  cbn. split; [assumption|]. eexists. split.
  - apply ProcessChunk_wrong_size; [assumption|]. cbn. lia.
  - red. eauto.
Qed.

(** X14.  The results of a sequence of calls depend only on the chunks, the
    two sizes of the instance and the library state it owns: two instances
    of equal sizes whose handles lead to equal states, in any two worlds,
    return the same results for the same chunks. *)
Theorem feed_depends_on_own_state chunks a wa b wb ha hb s :
  0 <= m_chunk_size_samples a ->
  m_chunk_size_samples a = m_chunk_size_samples b ->
  m_chunk_size_bytes a = m_chunk_size_bytes b ->
  state a = Some ha -> state b = Some hb ->
  w_speex wa !! ha = Some s -> w_speex wb !! hb = Some s ->
  feed chunks (a, wa) = feed chunks (b, wb).
Proof.
  intros Hpos Hs Hb Ha Hhb Hsa Hsb.
  rewrite (feed_solo chunks a wa ha s) by assumption.
  rewrite (feed_solo chunks b wb hb s) by (assumption || lia).
  apply solo_sizes; assumption.
Qed.

(** X15.  A rejected chunk does not disturb the stream: when a chunk of the
    wrong length is sent first, that call fails with ShapeMismatch and every
    later call returns what it would have returned without it. *)
Theorem rejected_chunk_is_skipped bad chunks this w :
  0 <= m_chunk_size_samples this -> owns_state this w ->
  Z.of_nat (length bad) <> m_chunk_size_bytes this ->
  exists e,
    ShapeMismatch e /\
    feed (bad :: chunks) (this, w) = Throws e :: feed chunks (this, w).
Proof.
  intros Hpos (h & Hst & [s Hs]) Hbad.
  rewrite (feed_solo (bad :: chunks) this w h s) by assumption.
  rewrite (feed_solo chunks this w h s) by assumption.
  cbn [solo]. unfold chunk_step at 1 2.
  destruct (Z.eqb_spec (Z.of_nat (length bad)) (m_chunk_size_bytes this))
    as [|_]; [contradiction|].
  cbn. eexists. split; [|reflexivity]. red. eauto.
Qed.

End Further.

(** ** The further properties on concrete inputs *)

Section FurtherWitnesses.

Import Demo Runs.

#[local] Existing Instance Gate.dsp.

Lemma runs_ctor :
  AudioProcessor_ctor 2 gain_on 7 (Gate.empty_world 2)
  = (Returns processor, after_ctor).
Proof. vm_compute. reflexivity. Defined.

Lemma runs_state : w_speex after_ctor !! 1%positive = Some gate_on.
Proof. vm_compute. reflexivity. Defined.

Lemma runs_owns : owns_state processor after_ctor.
Proof.
  exists 1%positive. split; [reflexivity|]. exists gate_on. exact runs_state.
Defined.

Lemma ctor_outcomes_witness :
  Int.in_range (2 * 2) /\
  0 < 2 /\ can_allocate (Gate.empty_world 2) 2 /\
  owns_state processor after_ctor /\
  m_chunk_size_bytes processor = 2 * 2.
Proof.
  assert (Hfits : Int.in_range (2 * 2)).
  { unfold Int.in_range, Int.min_signed, Int.max_signed. lia. }
  split; [exact Hfits|].
  pose proof (ctor_outcomes 2 Demo.gain_on 7 (Gate.empty_world 2) Hfits) as H.
  rewrite runs_ctor in H. exact H.
Defined.

Lemma ctor_failure_keeps_world_witness :
  AudioProcessor_ctor 160 gain_off 0 (Gate.empty_world 0)
  = (Throws failed_to_initialize, after_failed_ctor) /\
  w_speex after_failed_ctor = w_speex (Gate.empty_world 0) /\
  w_budget after_failed_ctor = w_budget (Gate.empty_world 0) /\
  w_mem after_failed_ctor = w_mem (Gate.empty_world 0) /\
  (w_trace after_failed_ctor = w_trace (Gate.empty_world 0) \/
   w_trace after_failed_ctor
   = w_trace (Gate.empty_world 0) ++ [EvInit 160 16000 None]).
Proof.
  split; [vm_compute; reflexivity|].
  apply (ctor_failure_keeps_world 160 gain_off 0 (Gate.empty_world 0)
           failed_to_initialize after_failed_ctor).
  vm_compute. reflexivity.
Defined.

Lemma ctor_calls_witness :
  exists calls,
    w_trace (AudioProcessor_ctor 2 Demo.gain_on 7 (Gate.empty_world 2)).2
    = w_trace (Gate.empty_world 2) ++ calls /\
    (2 <= 0 -> calls = []) /\
    (0 < 2 ->
     exists res requests,
       calls = EvInit 2 16000 res :: requests /\
       Forall (fun ev => exists h r, res = Some h /\ ev = EvCtl h r) requests).
Proof. exact (ctor_calls 2 Demo.gain_on 7 (Gate.empty_world 2)). Defined.

Lemma ctor_fresh_handle_witness :
  AudioProcessor_ctor 2 Demo.gain_on 7 (Gate.empty_world 2)
  = (Returns processor, after_ctor) /\
  exists h,
    state processor = Some h /\ (h ∉ dom (w_speex (Gate.empty_world 2))) /\
    dom (w_speex after_ctor) = {[h]} ∪ dom (w_speex (Gate.empty_world 2)) /\
    (forall h', h' ∈ dom (w_speex (Gate.empty_world 2)) ->
                w_speex after_ctor !! h' = w_speex (Gate.empty_world 2) !! h') /\
    S (w_budget after_ctor) = w_budget (Gate.empty_world 2) /\
    w_mem after_ctor = w_mem (Gate.empty_world 2).
Proof.
  split; [exact runs_ctor|].
  exact (ctor_fresh_handle 2 Demo.gain_on 7 (Gate.empty_world 2) processor
           after_ctor runs_ctor).
Defined.

Lemma dtor_releases_witness :
  state processor = Some 1%positive /\
  w_speex after_ctor !! 1%positive = Some gate_on /\
  exists this' w',
    AudioProcessor_dtor (processor, after_ctor) = (Returns tt, (this', w')) /\
    state this' = None /\
    w_speex w' = delete 1%positive (w_speex after_ctor) /\
    w_budget w' = S (w_budget after_ctor) /\ w_mem w' = w_mem after_ctor /\
    w_trace w' = w_trace after_ctor ++ [EvDestroy 1%positive].
Proof.
  split; [reflexivity|]. split; [exact runs_state|].
  exact (dtor_releases processor after_ctor 1%positive gate_on eq_refl
           runs_state).
Defined.

Lemma ctor_dtor_round_trip_witness :
  AudioProcessor_ctor 2 Demo.gain_on 7 (Gate.empty_world 2)
  = (Returns processor, after_ctor) /\
  exists this' w2,
    AudioProcessor_dtor (processor, after_ctor) = (Returns tt, (this', w2)) /\
    state this' = None /\
    w_speex w2 = w_speex (Gate.empty_world 2) /\
    w_budget w2 = w_budget (Gate.empty_world 2) /\
    w_mem w2 = w_mem (Gate.empty_world 2).
Proof.
  split; [exact runs_ctor|].
  exact (ctor_dtor_round_trip 2 Demo.gain_on 7 (Gate.empty_world 2) processor
           after_ctor runs_ctor).
Defined.

Lemma ProcessChunk_leaves_no_buffer_witness :
  ready processor (with_bytes four after_ctor) /\
  bytes_view (with_bytes four after_ctor) (view four) four /\
  exists r this' w',
    ProcessChunk (view four) (processor, with_bytes four after_ctor)
    = (r, (this', w')) /\
    r <> Undefined /\ w_mem w' = w_mem (with_bytes four after_ctor) /\
    dom (w_speex w') = dom (w_speex (with_bytes four after_ctor)) /\
    w_budget w' = w_budget (with_bytes four after_ctor).
Proof.
  split; [apply demo_ready|]. split; [apply demo_view|].
  eexists _, _, _. split; [vm_compute; reflexivity|].
  eapply (ProcessChunk_leaves_no_buffer (view four) four processor
            (with_bytes four after_ctor));
    [apply demo_ready | apply demo_view | vm_compute; reflexivity].
Defined.

Lemma ProcessChunk_returns_library_frame_witness :
  chunk_invariant processor /\
  state processor = Some 1%positive /\
  w_speex (with_bytes four after_ctor) !! 1%positive = Some gate_on /\
  bytes_view (with_bytes four after_ctor) (view four) four /\
  size (view four) = m_chunk_size_bytes processor /\
  dsp_run gate_on (PCM.samples_of_bytes four)
  = ({| Gate.denoise := true; Gate.agc := true; Gate.seen := 1 |},
     [1026; -506], 1) /\
  Z.of_nat (length [1026; -506]) = m_chunk_size_samples processor /\
  exists chunk w',
    ProcessChunk (view four) (processor, with_bytes four after_ctor)
    = (Returns chunk, (processor, w')) /\
    audio chunk = PCM.bytes_of_samples [1026; -506] /\
    PCM.samples_of_bytes (audio chunk) = map int16 [1026; -506] /\
    w_speex w' !! 1%positive
    = Some {| Gate.denoise := true; Gate.agc := true; Gate.seen := 1 |}.
Proof.
  split; [exact demo_invariant|]. split; [reflexivity|].
  split; [vm_compute; reflexivity|]. split; [apply demo_view|].
  split; [reflexivity|]. split; [vm_compute; reflexivity|].
  split; [reflexivity|].
  apply (ProcessChunk_returns_library_frame (view four) four processor
           (with_bytes four after_ctor) 1%positive gate_on
           {| Gate.denoise := true; Gate.agc := true; Gate.seen := 1 |}
           [1026; -506] 1);
    [exact demo_invariant | reflexivity | vm_compute; reflexivity
    | apply demo_view | reflexivity | vm_compute; reflexivity | reflexivity].
Defined.

Lemma constructed_rejects_odd_length_witness :
  AudioProcessor_ctor 2 Demo.gain_on 7 (Gate.empty_world 2)
  = (Returns processor, after_ctor) /\
  bytes_view (with_bytes three after_ctor) (view three) three /\
  Z.odd (Z.of_nat (length three)) = true /\
  exists e,
    ProcessChunk (view three) (processor, with_bytes three after_ctor)
    = (Throws e, (processor, with_bytes three after_ctor)) /\
    ShapeMismatch e.
Proof.
  split; [exact runs_ctor|]. split; [apply demo_view|].
  split; [reflexivity|].
  exact (constructed_rejects_odd_length 2 Demo.gain_on 7 (Gate.empty_world 2)
           processor after_ctor (with_bytes three after_ctor) (view three)
           three runs_ctor (demo_view three after_ctor) eq_refl).
Defined.

Lemma in_range_2 : Int.in_range 2.
Proof. unfold Int.in_range, Int.min_signed, Int.max_signed. lia. Defined.

Lemma constructed_rejects_empty_witness :
  Int.in_range 2 /\
  AudioProcessor_ctor 2 Demo.gain_on 7 (Gate.empty_world 2)
  = (Returns processor, after_ctor) /\
  bytes_view (with_bytes [] after_ctor) (view []) [] /\
  exists e,
    ProcessChunk (view []) (processor, with_bytes [] after_ctor)
    = (Throws e, (processor, with_bytes [] after_ctor)) /\
    ShapeMismatch e.
Proof.
  split; [exact in_range_2|]. split; [exact runs_ctor|].
  split; [apply demo_view|].
  exact (constructed_rejects_empty 2 Demo.gain_on 7 (Gate.empty_world 2)
           processor after_ctor (with_bytes [] after_ctor) (view [])
           in_range_2 runs_ctor (demo_view [] after_ctor)).
Defined.

Lemma oversized_in_range : Int.in_range 1073741824.
Proof. unfold Int.in_range, Int.min_signed, Int.max_signed. lia. Defined.

Lemma oversized_ctor :
  AudioProcessor_ctor 1073741824 gain_off 0 (Gate.empty_world 1)
  = (Returns oversized, after_oversized_ctor).
Proof. vm_compute. reflexivity. Defined.

Lemma oversized_instance_rejects_all_witness :
  Int.in_range 1073741824 /\ 1073741823 < 1073741824 /\
  AudioProcessor_ctor 1073741824 gain_off 0 (Gate.empty_world 1)
  = (Returns oversized, after_oversized_ctor) /\
  bytes_view (with_bytes four after_oversized_ctor) (view four) four /\
  m_chunk_size_bytes oversized < 0 /\
  exists e,
    ProcessChunk (view four) (oversized, with_bytes four after_oversized_ctor)
    = (Throws e, (oversized, with_bytes four after_oversized_ctor)) /\
    ShapeMismatch e.
Proof.
  split; [exact oversized_in_range|]. split; [lia|].
  split; [exact oversized_ctor|]. split; [apply demo_view|].
  apply (oversized_instance_rejects_all 1073741824 gain_off 0
           (Gate.empty_world 1) oversized after_oversized_ctor
           (with_bytes four after_oversized_ctor) (view four) four);
    [exact oversized_in_range | lia | exact oversized_ctor | apply demo_view].
Defined.

Lemma feed_depends_on_own_state_witness :
  0 <= m_chunk_size_samples processor /\
  m_chunk_size_samples processor = m_chunk_size_samples second_processor /\
  m_chunk_size_bytes processor = m_chunk_size_bytes second_processor /\
  state processor = Some 1%positive /\
  state second_processor = Some 2%positive /\
  w_speex after_ctor !! 1%positive = Some gate_on /\
  w_speex after_second_ctor !! 2%positive = Some gate_on /\
  feed [four; three; four] (processor, after_ctor)
  = feed [four; three; four] (second_processor, after_second_ctor).
Proof.
  split; [cbn; lia|]. split; [reflexivity|]. split; [reflexivity|].
  split; [reflexivity|]. split; [reflexivity|].
  split; [exact runs_state|]. split; [vm_compute; reflexivity|].
  apply (feed_depends_on_own_state [four; three; four] processor after_ctor
           second_processor after_second_ctor 1%positive 2%positive gate_on);
    [cbn; lia | reflexivity | reflexivity | reflexivity | reflexivity
    | exact runs_state | vm_compute; reflexivity].
Defined.

Lemma rejected_chunk_is_skipped_witness :
  0 <= m_chunk_size_samples processor /\
  owns_state processor after_ctor /\
  Z.of_nat (length three) <> m_chunk_size_bytes processor /\
  exists e,
    ShapeMismatch e /\
    feed (three :: [four; four]) (processor, after_ctor)
    = Throws e :: feed [four; four] (processor, after_ctor).
Proof.
  split; [cbn; lia|]. split; [exact runs_owns|]. split; [discriminate|].
  apply rejected_chunk_is_skipped;
    [cbn; lia | exact runs_owns | discriminate].
Defined.

End FurtherWitnesses.
